(** * NotPortable all-in-one server: controller bridge, anomaly detector,
      score-file parsers, delivery sink and file poller (src/parser.py)

    A shallow embedding of the Python program.  Conventions:

    - a Python [str] is a [list ascii]: the UTF-8 bytes of the text.  The
      character classes used by [str.strip], [int], [float] and the [re]
      patterns are those of the ASCII range;
    - a Python [int] is a [Z];
    - a Python [float] is idealised as an exact rational [Q]: rounding, the
      range of a float (hence [OverflowError] and the infinities) and NaN
      are outside the model, and so is the bound Python puts on the number
      of digits [int] reads;
    - [time.time()] is a clock that the environment owns: a sequence of
      readings and the number of readings consumed so far;
    - [print] appends a message to a log; messages are constructors, not
      rendered text;
    - exceptions are values of [exn]; a computation of type [M A] yields
      [inl e] when it raises [e] and [inr a] when it returns [a], together
      with the world it leaves.

    Besides the launcher and the menu of src/parser.py, the development
    covers three pieces of the collector, src/main.py: the chat connection
    manager, the guard on replay file names and the control flow of the
    log endpoints. *)

From Stdlib Require Import ZArith QArith Qround Qabs Qpower Lqa Lia Ascii String
  List Bool.
From stdpp Require Import gmap strings list.

Close Scope Q_scope.
Local Open Scope Z_scope.

(** ** Rationals standing for floats *)

Module PyFloat.

Definition ltb (x y : Q) : bool := negb (Qle_bool y x).
Definition gtb (x y : Q) : bool := ltb y x.

(** [sum(xs)]: the left fold that starts from the integer 0. *)
Definition sum (xs : list Q) : Q := fold_left Qplus xs (0%Q).

(** [float(n)] for an integer. *)
Definition of_int (n : Z) : Q := inject_Z n.

(** [x // y] and [x % y] for a positive divisor. *)
Definition floordiv (x y : Q) : Q := inject_Z (Qfloor (x / y)).
Definition mod_ (x y : Q) : Q := (x - y * floordiv x y)%Q.

(** [int(x)]: truncation towards zero. *)
Definition to_int (x : Q) : Z :=
  if Qle_bool 0 x then Qfloor x else Qceiling x.

End PyFloat.

(** ** The clock behind [time.time()] *)

Record Clock := mkClock {
  time_source : nat -> Q;  (* the n-th reading *)
  time_calls : nat         (* readings consumed so far *)
}.

Definition time_time (clk : Clock) : Q * Clock :=
  (time_source clk (time_calls clk),
   mkClock (time_source clk) (S (time_calls clk))).

(** ** Text: the builtins of [str] the program uses *)

(** A Python string: the bytes of its UTF-8 encoding. *)
Abbreviation str := (list ascii).

(** A literal. *)
Definition lit (s : string) : str := list_ascii_of_string s.

Module Py.

Definition LF : ascii := ascii_of_nat 10.
Definition CR : ascii := ascii_of_nat 13.

Definition code (c : ascii) : N := N_of_ascii c.

(** [str.isspace] on one character, which is also the class [\s] of [re]
    and what [str.strip] removes. *)
Definition isspace (c : ascii) : bool :=
  let n := code c in
  ((9 <=? n) && (n <=? 13) || (28 <=? n) && (n <=? 32))%N.

(** The padding [int] and [float] accept around a literal. *)
Definition ispadding (c : ascii) : bool :=
  let n := code c in
  ((9 <=? n) && (n <=? 13) || (n =? 32))%N.

(** The class [\d]. *)
Definition isdigit (c : ascii) : bool :=
  let n := code c in ((48 <=? n) && (n <=? 57))%N.

Definition digit_value (c : ascii) : Z := Z.of_N (code c) - 48.

(** [s.lstrip()], [s.rstrip()], [s.strip()] *)
Fixpoint lstrip_of (p : ascii -> bool) (s : str) : str :=
  match s with
  | c :: s' => if p c then lstrip_of p s' else s
  | [] => []
  end.
Definition strip_of (p : ascii -> bool) (s : str) : str :=
  rev (lstrip_of p (rev (lstrip_of p s))).
Definition strip (s : str) : str := strip_of isspace s.

(** [s.split(sep)] for a one-character separator: every occurrence cuts,
    empty fields are kept, and the empty string gives one empty field. *)
Fixpoint split (sep : ascii) (s : str) : list str :=
  match s with
  | [] => [[]]
  | c :: s' =>
      if Ascii.eqb c sep then [] :: split sep s'
      else match split sep s' with
           | f :: fs => (c :: f) :: fs
           | [] => [[c]]
           end
  end.

(** [s.replace(a, b)] for one-character [a] and [b]. *)
Definition replace (a b : ascii) (s : str) : str :=
  (fun c => if Ascii.eqb c a then b else c) <$> s.

(** [s.startswith(p)] *)
Fixpoint is_prefix (p s : str) : bool :=
  match p, s with
  | [], _ => true
  | a :: p', b :: s' => Ascii.eqb a b && is_prefix p' s'
  | _ :: _, [] => false
  end.

(** [s.replace(pat, "")] for a non-empty [pat]: every occurrence is removed,
    scanning from the left. *)
Fixpoint remove_all_fuel (fuel : nat) (pat s : str) : str :=
  match fuel, s with
  | O, _ => s
  | S _, [] => []
  | S fuel', c :: s' =>
      if is_prefix pat s
      then remove_all_fuel fuel' pat (drop (length pat) s)
      else c :: remove_all_fuel fuel' pat s'
  end.
Definition remove_all (pat s : str) : str :=
  remove_all_fuel (length s) pat s.

(** *** [int(s)] and [float(s)] *)

(** After the first digit of a run in which single underscores may
    separate digits: the further digits, underscores dropped, and what
    follows the run. *)
Fixpoint digitpart_tail (s : str) : str * str :=
  match s with
  | c :: s' =>
      if isdigit c
      then let '(ds, r) := digitpart_tail s' in (c :: ds, r)
      else if Ascii.eqb c "_"
      then match s' with
           | d :: s'' =>
               if isdigit d
               then let '(ds, r) := digitpart_tail s'' in (d :: ds, r)
               else ([], s)
           | [] => ([], s)
           end
      else ([], s)
  | [] => ([], [])
  end.

(** Such a run at the head of [s]: its digits and what follows; [None] when
    [s] does not start with a digit. *)
Definition digitpart (s : str) : option (str * str) :=
  match s with
  | c :: s' =>
      if isdigit c
      then let '(ds, r) := digitpart_tail s' in Some (c :: ds, r)
      else None
  | [] => None
  end.

(** The number a string of digits denotes. *)
Definition digits_value (ds : str) : Z :=
  fold_left (fun acc d => 10 * acc + digit_value d) ds 0.

(** An optional sign: [true] for minus. *)
Definition sign (s : str) : bool * str :=
  match s with
  | c :: s' =>
      if Ascii.eqb c "-" then (true, s')
      else if Ascii.eqb c "+" then (false, s')
      else (false, s)
  | [] => (false, [])
  end.

(** [int(s)]: [None] stands for [ValueError]. *)
Definition int (s : str) : option Z :=
  let '(neg, s1) := sign (strip_of ispadding s) in
  match digitpart s1 with
  | Some (ds, []) =>
      Some (if neg then - digits_value ds else digits_value ds)
  | _ => None
  end.

(** The exponent of a float literal, if any: its value and what follows. *)
Definition exponent (s : str) : option (Z * str) :=
  match s with
  | c :: s' =>
      if Ascii.eqb c "e" || Ascii.eqb c "E"
      then
        let '(neg, s1) := sign s' in
        match digitpart s1 with
        | Some (ds, r) =>
            Some (if neg then - digits_value ds else digits_value ds, r)
        | None => None
        end
      else Some (0, s)
  | [] => Some (0, [])
  end.

(** The mantissa: integer digits, fraction digits, what follows. *)
Definition mantissa (s : str) : option (str * str * str) :=
  match digitpart s with
  | Some (ip, r) =>
      match r with
      | c :: r' =>
          if Ascii.eqb c "."
          then match digitpart r' with
               | Some (fp, r'') => Some (ip, fp, r'')
               | None => Some (ip, [], r')
               end
          else Some (ip, [], r)
      | [] => Some (ip, [], [])
      end
  | None =>
      match s with
      | c :: r' =>
          if Ascii.eqb c "."
          then match digitpart r' with
               | Some (fp, r'') => Some ([], fp, r'')
               | None => None
               end
          else None
      | [] => None
      end
  end.

Definition pow10 (e : Z) : Q := Qpower (10 # 1) e.

(** [float(s)] on decimal literals: [None] stands for [ValueError].  The
    spellings of infinity and NaN are not literals of this model. *)
Definition float (s : str) : option Q :=
  let '(neg, s1) := sign (strip_of ispadding s) in
  match mantissa s1 with
  | Some (ip, fp, r) =>
      match exponent r with
      | Some (e, []) =>
          let m := inject_Z (digits_value (ip ++ fp)) in
          let v := (m * pow10 (e - Z.of_nat (length fp)))%Q in
          Some (if neg then (- v)%Q else v)
      | _ => None
      end
  | None => None
  end.

(** *** [bytes.decode('utf-8')] *)

Definition in_range (lo hi : N) (c : ascii) : bool :=
  ((lo <=? code c) && (code c <=? hi))%N.
Definition cont (c : ascii) : bool := in_range 128 191 c.

(** Strict UTF-8: shortest forms only, no surrogates, nothing above
    U+10FFFF. *)
Fixpoint valid_utf8 (b : str) : bool :=
  match b with
  | [] => true
  | c0 :: b1 =>
      if in_range 0 127 c0 then valid_utf8 b1
      else match b1 with
      | c1 :: b2 =>
          if in_range 194 223 c0 then cont c1 && valid_utf8 b2
          else match b2 with
          | c2 :: b3 =>
              if in_range 224 239 c0
              then (if in_range 224 224 c0 then in_range 160 191 c1
                    else if in_range 237 237 c0 then in_range 128 159 c1
                    else cont c1)
                   && cont c2 && valid_utf8 b3
              else match b3 with
              | c3 :: b4 =>
                  if in_range 240 244 c0
                  then (if in_range 240 240 c0 then in_range 144 191 c1
                        else if in_range 244 244 c0 then in_range 128 143 c1
                        else cont c1)
                       && cont c2 && cont c3 && valid_utf8 b4
                  else false
              | [] => false
              end
          | [] => false
          end
      | [] => false
      end
  end.

(** [data.decode('utf-8')]: [None] stands for [UnicodeDecodeError], a
    subclass of [ValueError]. *)
Definition decode_utf8 (data : str) : option str :=
  if valid_utf8 data then Some data else None.

(** *** [f.readlines()] in text mode *)

(** Universal newlines: "\r\n" and "\r" read as "\n". *)
Fixpoint universal_newlines (s : str) : str :=
  match s with
  | [] => []
  | c :: s' =>
      if Ascii.eqb c CR
      then match s' with
           | c' :: s'' =>
               if Ascii.eqb c' LF then LF :: universal_newlines s''
               else LF :: universal_newlines s'
           | [] => [LF]
           end
      else c :: universal_newlines s'
  end.

(** Lines with their ends kept. *)
Fixpoint keepends (s : str) : list str :=
  match s with
  | [] => []
  | c :: s' =>
      if Ascii.eqb c LF then [LF] :: keepends s'
      else match keepends s' with
           | l :: ls => (c :: l) :: ls
           | [] => [[c]]
           end
  end.

(** [f.read()] and [f.readlines()] on the text of a file. *)
Definition read (content : str) : str := universal_newlines content.
Definition readlines (content : str) : list str := keepends (read content).

(** *** Formatting *)

Definition digit_char (d : Z) : ascii := ascii_of_N (48 + Z.to_N d).

Fixpoint decimal_fuel (fuel : nat) (n : Z) (acc : str) : str :=
  match fuel with
  | O => acc
  | S fuel' =>
      let acc' := digit_char (n mod 10) :: acc in
      if n <? 10 then acc' else decimal_fuel fuel' (n / 10) acc'
  end.

(** [str(n)] for [0 <= n]. *)
Definition decimal (n : Z) : str :=
  decimal_fuel (S (Z.to_nat (Z.log2 n))) n [].

(** Zeros on the left up to [width] characters. *)
Definition zfill (width : nat) (s : str) : str :=
  replicate (width - length s) "0"%char ++ s.

(** [f"{n:02d}"] for [0 <= n]. *)
Definition fmt_02d (n : Z) : str := zfill 2 (decimal n).

(** Rounding to the nearest integer, ties to even. *)
Definition round_half_even (x : Q) : Z :=
  let f := Qfloor x in
  let d := (x - inject_Z f)%Q in
  match (d ?= 1 # 2)%Q with
  | Lt => f
  | Gt => f + 1
  | Eq => if Z.even f then f else f + 1
  end.

(** [f"{x:05.2f}"] for [0 <= x].  A tie is decided on the rational; Python
    decides it on the binary double that stands for [x]. *)
Definition fmt_05_2f (x : Q) : str :=
  let c := round_half_even (x * (100 # 1))%Q in
  zfill 5 (decimal (c / 100) ++ "."%char :: zfill 2 (decimal (c mod 100))).

End Py.

(** ** The fragment of [re] the patterns are written in *)

Module Re.

(** Character classes. *)
Inductive cclass :=
| digit                    (* \d *)
| space                    (* \s *)
| nonspace                 (* \S *)
| digit_or_dot             (* [\d.] *)
| other_than (c : ascii).  (* [^c] *)

Definition in_class (k : cclass) (c : ascii) : bool :=
  match k with
  | digit => Py.isdigit c
  | space => Py.isspace c
  | nonspace => negb (Py.isspace c)
  | digit_or_dot => Py.isdigit c || Ascii.eqb c "."
  | other_than x => negb (Ascii.eqb c x)
  end.

(** A pattern is a sequence of atoms; groups do not nest. *)
Inductive atom :=
| Lit (l : str)        (* literal text *)
| Plus (k : cclass)    (* k+, greedy *)
| Open                 (* ( *)
| Close                (* ) *)
| Bol                  (* ^ *)
| Eol.                 (* $ *)

Abbreviation pattern := (list atom).

(** Length of the longest prefix of [s] inside the class. *)
Fixpoint run (k : cclass) (s : str) : nat :=
  match s with
  | c :: s' => if in_class k c then S (run k s') else O
  | [] => O
  end.

(** The first success among [f n], [f (n-1)], ..., [f 1]. *)
Fixpoint first_down {A} (f : nat -> option A) (n : nat) : option A :=
  match n with
  | O => None
  | S n' => match f n with
            | Some r => Some r
            | None => first_down f n'
            end
  end.

(** Text consumed inside the open group, if one is open. *)
Definition capture (grp : option str) (w : str) : option str :=
  (fun g => g ++ w) <$> grp.

(** Backtracking match of [p] at the head of [s].  [bol] says that [s] is
    the whole subject; [grp] is the open group so far; [caps] the groups
    closed so far.  The result is the list of groups and the rest of the
    subject. *)
Fixpoint match_here (p : pattern) (bol : bool) (grp : option str)
    (caps : list str) (s : str) : option (list str * str) :=
  match p with
  | [] => Some (caps, s)
  | Lit l :: p' =>
      if Py.is_prefix l s
      then match_here p' (bol && bool_decide (l = [])) (capture grp l) caps
             (drop (length l) s)
      else None
  | Plus k :: p' =>
      first_down
        (fun n => match_here p' false (capture grp (take n s)) caps
                    (drop n s))
        (run k s)
  | Open :: p' => match_here p' bol (Some []) caps s
  | Close :: p' => match_here p' bol None (caps ++ [default [] grp]) s
  | Bol :: p' => if bol then match_here p' bol grp caps s else None
  | Eol :: p' =>
      if bool_decide (s = []) || bool_decide (s = [Py.LF])
      then match_here p' bol grp caps s
      else None
  end.

(** [re.match(p, s)]: the groups of the match at the start of [s]. *)
Definition match_ (p : pattern) (s : str) : option (list str) :=
  fst <$> match_here p true None [] s.

(** [re.search(p, s)]: the groups of the leftmost match. *)
Fixpoint search_from (p : pattern) (bol : bool) (s : str)
  : option (list str) :=
  match match_here p bol None [] s with
  | Some (caps, _) => Some caps
  | None => match s with
            | _ :: s' => search_from p false s'
            | [] => None
            end
  end.
Definition search (p : pattern) (s : str) : option (list str) :=
  search_from p true s.

(** [re.finditer(p, s)]: the groups of the successive matches, each search
    resuming where the previous match ended.  Every match of the patterns
    used here is non-empty. *)
Fixpoint finditer_fuel (fuel : nat) (p : pattern) (bol : bool) (s : str)
  : list (list str) :=
  match fuel with
  | O => []
  | S fuel' =>
      match match_here p bol None [] s with
      | Some (caps, rest) =>
          if bool_decide (length rest < length s)%nat
          then caps :: finditer_fuel fuel' p false rest
          else [caps]
      | None => match s with
                | _ :: s' => finditer_fuel fuel' p false s'
                | [] => []
                end
      end
  end.
Definition finditer (p : pattern) (s : str) : list (list str) :=
  finditer_fuel (S (length s)) p true s.

End Re.

(** The patterns of the three parsers. *)

(** [^(\d+)\s+(\d+)\s+(\S+)$] *)
Definition neverball_pattern : Re.pattern :=
  [Re.Bol; Re.Open; Re.Plus Re.digit; Re.Close; Re.Plus Re.space;
   Re.Open; Re.Plus Re.digit; Re.Close; Re.Plus Re.space;
   Re.Open; Re.Plus Re.nonspace; Re.Close; Re.Eol].

(** [\[tag\]\s+(k+)] *)
Definition tag_pattern (tag : string) (k : Re.cclass) : Re.pattern :=
  [Re.Lit (lit tag); Re.Plus Re.space; Re.Open; Re.Plus k; Re.Close].

Definition course_pattern := tag_pattern "[course]" Re.nonspace.
Definition plyr_pattern := tag_pattern "[plyr]" Re.nonspace.
Definition pts_pattern := tag_pattern "[pts]" Re.digit.
Definition herr_pattern := tag_pattern "[herr]" Re.digit.
Definition time_pattern := tag_pattern "[time]" Re.digit_or_dot.

Definition DQUOTE : ascii := ascii_of_nat 34.

(** The level pattern of the SuperTux save file. *)
Definition level_pattern : Re.pattern :=
  [Re.Lit ("("%char :: [DQUOTE]);
   Re.Open; Re.Plus (Re.other_than DQUOTE); Re.Lit (lit ".stl"); Re.Close;
   Re.Lit [DQUOTE]; Re.Plus Re.space;
   Re.Lit (lit "(perfect"); Re.Plus Re.space;
   Re.Plus (Re.other_than ")"); Re.Lit (lit ")"); Re.Plus Re.space;
   Re.Lit ("("%char :: DQUOTE :: lit "statistics" ++ [DQUOTE]);
   Re.Plus (Re.other_than ")");
   Re.Lit (lit "(coins-collected"); Re.Plus Re.space;
   Re.Open; Re.Plus Re.digit; Re.Close; Re.Lit (lit ")");
   Re.Plus (Re.other_than ")");
   Re.Lit (lit "(secrets-found"); Re.Plus Re.space;
   Re.Open; Re.Plus Re.digit; Re.Close; Re.Lit (lit ")");
   Re.Plus (Re.other_than ")");
   Re.Lit (lit "(time-needed"); Re.Plus Re.space;
   Re.Open; Re.Plus Re.digit_or_dot; Re.Close; Re.Lit (lit ")")].

(** ** Messages and exceptions *)

(** What the program prints, one constructor per [print] site. *)
Inductive msg :=
| MsgBaselineSet (avg_pitch avg_roll : Q)
| MsgAnomaly (base_pitch cur_pitch pitch_change
              base_roll cur_roll roll_change : Q)
| MsgKeyboardDisabled
| MsgKeyboardCreated
| MsgKeyboardFailed
| MsgUdpListening
| MsgUdpError
| MsgReceiving
| MsgReceiveError
| MsgFound (game : string) (n : nat)
| MsgParseError (game : string)
| MsgSendFailed (game : string)
| MsgSummary (game : string) (saved duplicates anomalies : option nat)
| MsgLogChanged (game : string).

Inductive exn :=
| ValueError
| AttributeError
| KeyError
| OSError
| ConnectionError
| RequestError.   (* any other exception of [requests.post] *)

(** ** MPUAnomalyDetector *)

Record MPUAnomalyDetector := mkDetector {
  enabled : bool;
  baseline_pitch : option Q;
  baseline_roll : option Q;
  current_pitch : Q;
  current_roll : Q;
  last_check_time : Q;
  check_interval : Q;
  pitch_threshold : Q;
  roll_threshold : Q;
  calibration_samples : list (Q * Q);
  calibration_count : nat
}.

Module Detector.

(** [__init__] *)
Definition init : MPUAnomalyDetector := {|
  enabled := true;
  baseline_pitch := None;
  baseline_roll := None;
  current_pitch := 0%Q;
  current_roll := 0%Q;
  last_check_time := 0%Q;
  check_interval := 2%Q;
  pitch_threshold := 15%Q;
  roll_threshold := 15%Q;
  calibration_samples := [];
  calibration_count := 10
|}.

Definition set_current (pitch roll : Q) (self : MPUAnomalyDetector) :=
  mkDetector (enabled self) (baseline_pitch self) (baseline_roll self)
    pitch roll (last_check_time self) (check_interval self)
    (pitch_threshold self) (roll_threshold self)
    (calibration_samples self) (calibration_count self).

Definition set_samples (l : list (Q * Q)) (self : MPUAnomalyDetector) :=
  mkDetector (enabled self) (baseline_pitch self) (baseline_roll self)
    (current_pitch self) (current_roll self) (last_check_time self)
    (check_interval self) (pitch_threshold self) (roll_threshold self)
    l (calibration_count self).

Definition set_baseline (p r : Q) (self : MPUAnomalyDetector) :=
  mkDetector (enabled self) (Some p) (Some r)
    (current_pitch self) (current_roll self) (last_check_time self)
    (check_interval self) (pitch_threshold self) (roll_threshold self)
    (calibration_samples self) (calibration_count self).

Definition set_last_check_time (t : Q) (self : MPUAnomalyDetector) :=
  mkDetector (enabled self) (baseline_pitch self) (baseline_roll self)
    (current_pitch self) (current_roll self) t
    (check_interval self) (pitch_threshold self) (roll_threshold self)
    (calibration_samples self) (calibration_count self).

(** [sum(...) / len(self.calibration_samples)] *)
Definition average (xs : list Q) : Q :=
  (PyFloat.sum xs / PyFloat.of_int (Z.of_nat (length xs)))%Q.

(** [update(self, pitch, roll)]: the detector afterwards and what was
    printed. *)
Definition update (pitch roll : Q) (self : MPUAnomalyDetector)
  : MPUAnomalyDetector * list msg :=
  let self := set_current pitch roll self in
  match baseline_pitch self with
  | None =>
      let self :=
        set_samples (calibration_samples self ++ [(pitch, roll)]) self in
      if (calibration_count self <=? length (calibration_samples self))%nat
      then
        let avg_pitch := average (fst <$> calibration_samples self) in
        let avg_roll := average (snd <$> calibration_samples self) in
        (set_baseline avg_pitch avg_roll self,
         [MsgBaselineSet avg_pitch avg_roll])
      else (self, [])
  | Some _ => (self, [])
  end.

(** [check_anomaly(self)]: the result, the detector afterwards, the clock
    afterwards and what was printed.  The clock is read only past the
    first guard.  [baseline_roll] is assigned together with
    [baseline_pitch], so it is set wherever the subtraction is reached. *)
Definition check_anomaly (self : MPUAnomalyDetector) (clk : Clock)
  : bool * MPUAnomalyDetector * Clock * list msg :=
  match enabled self, baseline_pitch self with
  | false, _ | _, None => (false, self, clk, [])
  | true, Some base_pitch =>
      let '(current_time, clk) := time_time clk in
      if PyFloat.ltb (current_time - last_check_time self)%Q
                     (check_interval self)
      then (false, self, clk, [])
      else
        let self := set_last_check_time current_time self in
        let base_roll := default 0%Q (baseline_roll self) in
        let pitch_change := Qabs (current_pitch self - base_pitch)%Q in
        let roll_change := Qabs (current_roll self - base_roll)%Q in
        if PyFloat.gtb pitch_change (pitch_threshold self)
           || PyFloat.gtb roll_change (roll_threshold self)
        then (true, self, clk,
              [MsgAnomaly base_pitch (current_pitch self) pitch_change
                          base_roll (current_roll self) roll_change])
        else (false, self, clk, [])
  end.

(** A history of calls on one detector. *)
Inductive call :=
| Update (pitch roll : Q)
| CheckAnomaly.

(** The results of the [CheckAnomaly] calls, in order, and the final state. *)
Fixpoint run (calls : list call) (self : MPUAnomalyDetector) (clk : Clock)
  : list bool * MPUAnomalyDetector * Clock :=
  match calls with
  | [] => ([], self, clk)
  | Update pitch roll :: rest => run rest (update pitch roll self).1 clk
  | CheckAnomaly :: rest =>
      let '(b, self, clk, _) := check_anomaly self clk in
      let '(bs, self, clk) := run rest self clk in
      (b :: bs, self, clk)
  end.

(** The samples the [Update] calls of a history carry. *)
Fixpoint samples_of (calls : list call) : list (Q * Q) :=
  match calls with
  | [] => []
  | Update pitch roll :: rest => (pitch, roll) :: samples_of rest
  | CheckAnomaly :: rest => samples_of rest
  end.

End Detector.

(** ** VirtualKeyboard *)

Definition THRESHOLD_LOW : Z := 1000.
Definition THRESHOLD_HIGH : Z := 3000.

Inductive key := KEY_UP | KEY_DOWN | KEY_LEFT | KEY_RIGHT | KEY_ENTER | KEY_SPACE.

(** What reaches the virtual device: [write(EV_KEY, k, v)] and [syn()]. *)
Inductive uinput_event :=
| Write (k : key) (value : Z)
| Syn.

Inductive socket := Unbound | Bound.

Record VirtualKeyboard := mkKeyboard {
  keyboard : option (list uinput_event);  (* the device and what it received *)
  sock : option socket;
  running : bool
}.

Record ControllerFrame := mkFrame {
  x_val : Z;
  y_val : Z;
  sw_pressed : bool;
  btn_up : bool;
  btn_left : bool;
  btn_down : bool;
  btn_right : bool;
  pitch : Q;
  roll : Q
}.

(** The key states of the data model. *)
Record KeyState := mkKeys {
  Up : bool; Down : bool; Left : bool; Right : bool;
  Enter : bool; Space : bool
}.

Inductive decoded :=
| Frame (f : ControllerFrame)
| WrongCount   (* [len(parts) != 9]: return *)
| Unparsable.  (* [ValueError]: pass *)

Inductive datagram_event :=
| Datagram (data : str)
| Timeout          (* [socket.timeout] *)
| SocketError.     (* any other exception of [recvfrom] *)

Module Keyboard.

(** [__init__]: [EVDEV_AVAILABLE] is whether the import succeeded,
    [uinput_ok] whether [UInput(...)] returns rather than raises. *)
Definition init (EVDEV_AVAILABLE uinput_ok : bool)
  : VirtualKeyboard * list msg :=
  if negb EVDEV_AVAILABLE
  then (mkKeyboard None None false, [MsgKeyboardDisabled])
  else if uinput_ok
  then (mkKeyboard (Some []) None false, [MsgKeyboardCreated])
  else (mkKeyboard None None false, [MsgKeyboardFailed]).

(** [start]: [bind_ok] is whether the socket could be bound.  The second
    component says whether the receiver thread was started. *)
Definition start (EVDEV_AVAILABLE bind_ok : bool) (self : VirtualKeyboard)
  : VirtualKeyboard * bool * list msg :=
  if negb EVDEV_AVAILABLE || negb (bool_decide (is_Some (keyboard self)))
  then (self, false, [])
  else if bind_ok
  then (mkKeyboard (keyboard self) (Some Bound) true, true,
        [MsgUdpListening; MsgReceiving])
  else (mkKeyboard (keyboard self) (Some Unbound) (running self), false,
        [MsgUdpError]).

Definition is_one (part : str) : bool := bool_decide (part = lit "1").

(** Lines 193-206 of [_process_data]: decoding, splitting, conversions. *)
Definition decode_frame (data : str) : decoded :=
  match Py.decode_utf8 data with
  | None => Unparsable
  | Some text =>
      match Py.split "," text with
      | [p0; p1; p2; p3; p4; p5; p6; p7; p8] =>
          match Py.int p0, Py.int p1, Py.float p7, Py.float p8 with
          | Some x, Some y, Some pitch, Some roll =>
              Frame (mkFrame x y (is_one p2) (is_one p3) (is_one p4)
                       (is_one p5) (is_one p6) pitch roll)
          | _, _, _, _ => Unparsable
          end
      | _ => WrongCount
      end
  end.

(** Lines 212-216: the key decisions. *)
Definition key_state (f : ControllerFrame) : KeyState :=
  let key_right := (x_val f <? THRESHOLD_LOW) || btn_right f in
  let key_left := (x_val f >? THRESHOLD_HIGH) || btn_left f in
  let key_down := (y_val f >? THRESHOLD_HIGH) || btn_down f in
  let is_up_active := (y_val f <? THRESHOLD_LOW) || btn_up f in
  let key_enter := sw_pressed f in
  mkKeys is_up_active key_down key_left key_right key_enter is_up_active.

Definition level (b : bool) : Z := if b then 1 else 0.

(** Lines 219-228: six writes and one synchronisation. *)
Definition emit (ks : KeyState) : list uinput_event :=
  [Write KEY_RIGHT (level (Right ks));
   Write KEY_LEFT (level (Left ks));
   Write KEY_DOWN (level (Down ks));
   Write KEY_ENTER (level (Enter ks));
   Write KEY_UP (level (Up ks));
   Write KEY_SPACE (level (Space ks));
   Syn].

(** [_process_data(self, data)] on the shared detector.  The first
    component is the exception that leaves the method, if any: with no
    device the first [write] raises [AttributeError], after the detector
    was updated. *)
Definition _process_data (self : VirtualKeyboard) (data : str)
    (det : MPUAnomalyDetector)
  : option exn * VirtualKeyboard * MPUAnomalyDetector * list msg :=
  match decode_frame data with
  | WrongCount | Unparsable => (None, self, det, [])
  | Frame f =>
      let '(det, out) := Detector.update (pitch f) (roll f) det in
      match keyboard self with
      | None => (Some AttributeError, self, det, out)
      | Some received =>
          (None,
           mkKeyboard (Some (received ++ emit (key_state f)))
                      (sock self) (running self),
           det, out)
      end
  end.

(** [_receive_loop] over what [recvfrom] yields, while [running] holds. *)
Fixpoint _receive_loop (incoming : list datagram_event)
    (self : VirtualKeyboard) (det : MPUAnomalyDetector)
  : VirtualKeyboard * MPUAnomalyDetector * list msg :=
  match incoming with
  | [] => (self, det, [])
  | ev :: rest =>
      if negb (running self) then (self, det, [])
      else
        let '(self, det, out) :=
          match ev with
          | Datagram data =>
              let '(raised, self, det, out) := _process_data self data det in
              match raised with
              | None => (self, det, out)
              | Some _ => (self, det, out ++ [MsgReceiveError])
              end
          | Timeout => (self, det, [])
          | SocketError => (self, det, [MsgReceiveError])
          end in
        let '(self, det, out') := _receive_loop rest self det in
        (self, det, out ++ out')
  end.

(** The device state a log of events leaves: the last value written to a
    key, if any. *)
Definition key_eqb (a b : key) : bool :=
  match a, b with
  | KEY_UP, KEY_UP | KEY_DOWN, KEY_DOWN | KEY_LEFT, KEY_LEFT
  | KEY_RIGHT, KEY_RIGHT | KEY_ENTER, KEY_ENTER | KEY_SPACE, KEY_SPACE => true
  | _, _ => false
  end.

Fixpoint last_written (k : key) (evs : list uinput_event) (cur : option Z)
  : option Z :=
  match evs with
  | [] => cur
  | Write k' v :: rest =>
      last_written k rest (if key_eqb k k' then Some v else cur)
  | Syn :: rest => last_written k rest cur
  end.

Definition pressed (k : key) (evs : list uinput_event) : option bool :=
  (fun v => negb (v =? 0)) <$> last_written k evs None.

End Keyboard.

(** ** The world the parsers, the sink and the poller act on *)

Record File := mkFile {
  mtime : Q;
  content : option str   (* the text [read] yields; [None]: reading raises *)
}.

(** What [requests.post] comes back with. *)
Inductive post_outcome :=
| Response (status_code : Z)
| Raises (e : exn).

Record World := mkWorld {
  fs : gmap string File;
  mpu_detector : MPUAnomalyDetector;   (* the module-level detector *)
  clock : Clock;
  http : nat -> post_outcome;          (* the outcome of the n-th request *)
  http_calls : nat;
  stdout : list msg
}.

(** Computations that read and write the world and may raise. *)
Definition M (A : Type) : Type := World -> (exn + A) * World.

Definition ret {A} (a : A) : M A := fun w => (inr a, w).
Definition raise {A} (e : exn) : M A := fun w => (inl e, w).
Definition bind {A B} (m : M A) (k : A -> M B) : M B :=
  fun w => match m w with
           | (inr a, w') => k a w'
           | (inl e, w') => (inl e, w')
           end.
(** [try: m  except Exception as e: handler e] *)
Definition try_except {A} (m : M A) (handler : exn -> M A) : M A :=
  fun w => match m w with
           | (inr a, w') => (inr a, w')
           | (inl e, w') => handler e w'
           end.

Notation "x <- m ;; k" := (bind m (fun x => k))
  (at level 100, m at next level, right associativity).
Notation "m ;;; k" := (bind m (fun _ => k))
  (at level 100, right associativity).

(** The world after [m] was printed, and after one more request. *)
Definition printed (m : msg) (w : World) : World :=
  mkWorld (fs w) (mpu_detector w) (clock w) (http w) (http_calls w)
    (stdout w ++ [m]).
Definition sent (w : World) : World :=
  mkWorld (fs w) (mpu_detector w) (clock w) (http w) (S (http_calls w))
    (stdout w).

Definition print (m : msg) : M unit := fun w => (inr tt, printed m w).

(** A loop over a list with local variables [acc]. *)
Fixpoint for_each {A S} (body : S -> A -> M S) (l : list A) (acc : S) : M S :=
  match l with
  | [] => ret acc
  | a :: l' => acc' <- body acc a ;; for_each body l' acc'
  end.

(** A value that must be present, else [e] is raised. *)
Definition expect {A} (e : exn) (o : option A) : M A :=
  match o with Some a => ret a | None => raise e end.

Definition os_path_exists (path : string) : M bool :=
  fun w => (inr (bool_decide (is_Some (fs w !! path))), w).

Definition os_path_getmtime (path : string) : M Q :=
  fun w => match fs w !! path with
           | Some f => (inr (mtime f), w)
           | None => (inl OSError, w)
           end.

(** [open(path)] and reading it: the text of the file, before the
    translation of line ends. *)
Definition read_text (path : string) : M str :=
  fun w => match fs w !! path with
           | Some f => match content f with
                       | Some text => (inr text, w)
                       | None => (inl OSError, w)
                       end
           | None => (inl OSError, w)
           end.

(** [mpu_detector.check_anomaly()] *)
Definition mpu_check_anomaly : M bool :=
  fun w =>
    let '(b, det, clk, out) :=
      Detector.check_anomaly (mpu_detector w) (clock w) in
    (inr b, mkWorld (fs w) det clk (http w) (http_calls w) (stdout w ++ out)).

(** ** Play records *)

Record NeverballLog := mkNeverball {
  nb_username : str;
  nb_level : Z;
  nb_score : Z;
  nb_coins : Z;
  nb_time : str;
  nb_is_anomaly : bool
}.

Record SuperTuxLog := mkSuperTux {
  st_username : str;
  st_level : str;
  st_coins : Z;
  st_secrets : Z;
  st_time : Q;
  st_is_anomaly : bool
}.

Record ETRLog := mkETR {
  etr_username : str;
  etr_course : str;
  etr_score : Z;
  etr_herring : Z;
  etr_time : str;
  etr_is_anomaly : bool
}.

Inductive PlayRecord :=
| NeverballRecord (r : NeverballLog)
| SuperTuxRecord (r : SuperTuxLog)
| ETRRecord (r : ETRLog).

(** [log.get('is_anomaly')] *)
Definition is_anomaly (log : PlayRecord) : bool :=
  match log with
  | NeverballRecord r => nb_is_anomaly r
  | SuperTuxRecord r => st_is_anomaly r
  | ETRRecord r => etr_is_anomaly r
  end.

(** [requests.post(url, json=log, timeout=5)]: the status code. *)
Definition requests_post (game : string) (log : PlayRecord) : M Z :=
  fun w =>
    match http w (http_calls w) with
    | Response status_code => (inr status_code, sent w)
    | Raises e => (inl e, sent w)
    end.

(** ** The parsers *)

Definition SUPERTUX_USERNAME_FILE : string := "/tmp/supertux_username.txt".

Definition reserved (username : str) : bool :=
  bool_decide (username ∈ [lit "Hard"; lit "Medium"; lit "Easy"]).

(** The time text of a Neverball record, lines 264-267. *)
Definition neverball_time (time_ms : Z) : str :=
  let time_sec := (PyFloat.of_int time_ms / (100 # 1))%Q in
  let minutes := PyFloat.to_int (PyFloat.floordiv time_sec (60 # 1)) in
  let seconds := PyFloat.to_int (PyFloat.mod_ time_sec (60 # 1)) in
  Py.fmt_02d minutes ++ ":"%char :: Py.fmt_02d seconds.

(** The body of the loop of [parse_neverball_log] on one line. *)
Definition neverball_line
    (acc : list NeverballLog * gset (str * Z * Z)) (line : str)
  : M (list NeverballLog * gset (str * Z * Z)) :=
  let '(logs, seen_records) := acc in
  let line := Py.strip line in
  match Re.match_ neverball_pattern line with
  | Some [time_ms; coins; username] =>
      if reserved username then ret acc
      else
        t <- expect ValueError (Py.int time_ms) ;;
        let time_str := neverball_time t in
        c <- expect ValueError (Py.int coins) ;;
        let record_key := (username, t, c) in
        if bool_decide (record_key ∈ seen_records) then ret acc
        else
          let seen_records := seen_records ∪ {[record_key]} in
          is_anomaly <- mpu_check_anomaly ;;
          ret (logs ++ [mkNeverball username 1 t c time_str is_anomaly],
               seen_records)
  | _ => ret acc
  end.

Definition parse_neverball_log (filepath : string) : M (list NeverballLog) :=
  present <- os_path_exists filepath ;;
  if negb present then ret []
  else
    try_except
      (text <- read_text filepath ;;
       let lines := Py.readlines text in
       acc <- for_each neverball_line lines ([], ∅) ;;
       let logs := acc.1 in
       (if bool_decide (logs = []) then ret tt
        else print (MsgFound "Neverball" (length logs))) ;;;
       ret logs)
      (fun _ => print (MsgParseError "Neverball") ;;; ret []).

(** The player name of the SuperTux records, lines 309-317. *)
Definition supertux_username : M str :=
  present <- os_path_exists SUPERTUX_USERNAME_FILE ;;
  if negb present then ret (lit "Player")
  else
    try_except
      (text <- read_text SUPERTUX_USERNAME_FILE ;;
       let saved_name := Py.strip (Py.read text) in
       ret (if bool_decide (saved_name = []) then lit "Player"
            else saved_name))
      (fun _ => ret (lit "Player")).

Definition supertux_match (username : str) (logs : list SuperTuxLog)
    (groups : list str) : M (list SuperTuxLog) :=
  match groups with
  | [level_name; coins; secrets; game_time] =>
      let level_name := Py.remove_all (lit ".stl") level_name in
      is_anomaly <- mpu_check_anomaly ;;
      c <- expect ValueError (Py.int coins) ;;
      s <- expect ValueError (Py.int secrets) ;;
      t <- expect ValueError (Py.float game_time) ;;
      ret (logs ++ [mkSuperTux username level_name c s t is_anomaly])
  | _ => ret logs
  end.

Definition parse_supertux_log (filepath : string) : M (list SuperTuxLog) :=
  present <- os_path_exists filepath ;;
  if negb present then ret []
  else
    try_except
      (text <- read_text filepath ;;
       let matches := Re.finditer level_pattern (Py.read text) in
       username <- supertux_username ;;
       logs <- for_each (supertux_match username) matches [] ;;
       (if bool_decide (logs = []) then ret tt
        else print (MsgFound "SuperTux" (length logs))) ;;;
       ret logs)
      (fun _ => print (MsgParseError "SuperTux") ;;; ret []).

(** The time text of a racer record, lines 367-369. *)
Definition etr_time_str (time_sec : Q) : str :=
  let minutes := PyFloat.to_int (PyFloat.floordiv time_sec (60 # 1)) in
  let seconds := PyFloat.mod_ time_sec (60 # 1) in
  Py.fmt_02d minutes ++ ":"%char :: Py.fmt_05_2f seconds.

(** The body of the loop of [parse_etr_log] on one line. *)
Definition etr_line (logs : list ETRLog) (line : str) : M (list ETRLog) :=
  let course_match := Re.search course_pattern line in
  let plyr_match := Re.search plyr_pattern line in
  let pts_match := Re.search pts_pattern line in
  let herr_match := Re.search herr_pattern line in
  let time_match := Re.search time_pattern line in
  match course_match, plyr_match, pts_match, herr_match, time_match with
  | Some [course1], Some [username], Some [pts1], Some [herr1], Some [time1] =>
      let course := Py.replace "_" " " course1 in
      score <- expect ValueError (Py.int pts1) ;;
      herring <- expect ValueError (Py.int herr1) ;;
      time_sec <- expect ValueError (Py.float time1) ;;
      let time_str := etr_time_str time_sec in
      is_anomaly <- mpu_check_anomaly ;;
      ret (logs ++ [mkETR username course score herring time_str is_anomaly])
  | _, _, _, _, _ => ret logs
  end.

Definition parse_etr_log (filepath : string) : M (list ETRLog) :=
  present <- os_path_exists filepath ;;
  if negb present then ret []
  else
    try_except
      (text <- read_text filepath ;;
       let lines := Py.readlines text in
       logs <- for_each etr_line lines [] ;;
       (if bool_decide (logs = []) then ret tt
        else print (MsgFound "ETR" (length logs))) ;;;
       ret logs)
      (fun _ => print (MsgParseError "ETR") ;;; ret []).

(** ** The delivery sink *)

Record counters := mkCounters {
  success_count : nat;
  anomaly_count : nat;
  duplicate_count : nat
}.

(** The body of the loop of [send_to_api] on one record. *)
Definition send_one (game : string) (c : counters) (log : PlayRecord)
  : M counters :=
  try_except
    (status_code <- requests_post game log ;;
     if status_code =? 200
     then ret (mkCounters (S (success_count c))
                 (if is_anomaly log then S (anomaly_count c)
                  else anomaly_count c)
                 (duplicate_count c))
     else if status_code =? 409
     then ret (mkCounters (success_count c) (anomaly_count c)
                 (S (duplicate_count c)))
     else ret c)
    (fun e => match e with
              | ConnectionError => ret c
              | _ => print (MsgSendFailed game) ;;; ret c
              end).

Definition nonzero (n : nat) : option nat :=
  if (0 <? n)%nat then Some n else None.

(** [send_to_api(game, logs)]; the counters are returned for inspection. *)
Definition send_to_api (game : string) (logs : list PlayRecord) : M counters :=
  c <- for_each (send_one game) logs (mkCounters 0 0 0) ;;
  (if (0 <? success_count c)%nat || (0 <? duplicate_count c)%nat
   then print (MsgSummary game (nonzero (success_count c))
                 (nonzero (duplicate_count c)) (nonzero (anomaly_count c)))
   else ret tt) ;;;
  ret c.

(** ** LogWatcher *)

Definition LOG_PATHS : list (string * string) :=
  [("neverball", "~/.neverball/Scores/easy.txt");
   ("supertux", "~/.local/share/supertux2/profile1/world1.stsg");
   ("etr", "~/.config/etr/highscore")]%string.

Record LogWatcher := mkWatcher {
  watching : bool;                 (* [self.running] *)
  last_modified : gmap string Q
}.

Module Watcher.

(** [__init__] *)
Definition init_one (lm : gmap string Q) (entry : string * string)
  : M (gmap string Q) :=
  let '(game, path) := entry in
  present <- os_path_exists path ;;
  if present
  then t <- os_path_getmtime path ;; ret (<[game := t]> lm)
  else ret (<[game := 0%Q]> lm).

Definition init : M LogWatcher :=
  lm <- for_each init_one LOG_PATHS ∅ ;;
  ret (mkWatcher false lm).

(** The parser of a game, lines 511-518 and 534-541. *)
Definition parse (game path : string) : M (list PlayRecord) :=
  if bool_decide (game = "neverball")
  then logs <- parse_neverball_log path ;; ret (NeverballRecord <$> logs)
  else if bool_decide (game = "supertux")
  then logs <- parse_supertux_log path ;; ret (SuperTuxRecord <$> logs)
  else if bool_decide (game = "etr")
  then logs <- parse_etr_log path ;; ret (ETRRecord <$> logs)
  else ret [].

(** The body of the [for] of [_watch_loop] on one game. *)
Definition watch_one (self : LogWatcher) (entry : string * string)
  : M LogWatcher :=
  let '(game, path) := entry in
  present <- os_path_exists path ;;
  if present
  then
    current_mtime <- os_path_getmtime path ;;
    stored <- expect KeyError (last_modified self !! game) ;;
    if PyFloat.gtb current_mtime stored
    then
      print (MsgLogChanged game) ;;;
      let self :=
        mkWatcher (watching self)
                  (<[game := current_mtime]> (last_modified self)) in
      logs <- parse game path ;;
      (if bool_decide (logs = []) then ret tt
       else send_to_api game logs ;;; ret tt) ;;;
      ret self
    else ret self
  else ret self.

(** One turn of the [while] of [_watch_loop], before the sleep. *)
Definition watch_cycle (self : LogWatcher) : M LogWatcher :=
  for_each watch_one LOG_PATHS self.



End Watcher.

(** ** Start-up of the controller side, as [main] does it *)

Record Controller := mkController {
  vk : VirtualKeyboard;
  receiver_started : bool;   (* the thread of [_receive_loop] exists *)
  detector : MPUAnomalyDetector;
  console : list msg
}.

(** [keyboard = VirtualKeyboard(); keyboard.start()] *)
Definition boot_controller (EVDEV_AVAILABLE uinput_ok bind_ok : bool)
  : Controller :=
  let '(self, out1) := Keyboard.init EVDEV_AVAILABLE uinput_ok in
  let '(self, started, out2) := Keyboard.start EVDEV_AVAILABLE bind_ok self in
  mkController self started Detector.init (out1 ++ out2).

(** What the datagrams that arrive at the port do to the program: they are
    received only by the receiver thread. *)
Definition deliver (incoming : list datagram_event) (c : Controller)
  : Controller :=
  if receiver_started c
  then
    let '(self, det, out) :=
      Keyboard._receive_loop incoming (vk c) (detector c) in
    mkController self true det (console c ++ out)
  else c.

(** ** Vocabulary of the statements *)




(** The detector is past calibration and configured as [__init__] leaves it. *)
Definition armed (self : MPUAnomalyDetector) : Prop :=
  enabled self = true /\ is_Some (baseline_pitch self)
  /\ check_interval self = 2%Q.

(** The reading the next call of [time.time()] returns, and the clock after. *)
Definition now (clk : Clock) : Q := (time_time clk).1.
Definition tick (clk : Clock) : Clock := (time_time clk).2.

(** How many results are [True]. *)
Fixpoint trues (results : list bool) : nat :=
  match results with
  | [] => O
  | b :: rest => ((if b then 1 else 0) + trues rest)%nat
  end.


(** The verdict of the comparison of lines 112-116. *)
Definition deviates (self : MPUAnomalyDetector) : bool :=
  PyFloat.gtb
    (Qabs (current_pitch self - default 0 (baseline_pitch self)))%Q 15%Q
  || PyFloat.gtb
       (Qabs (current_roll self - default 0 (baseline_roll self)))%Q 15%Q.

(** A class none of whose characters is white space. *)
Definition solid (k : Re.cclass) : Prop :=
  forall c, Re.in_class k c = true -> Py.isspace c = false.

(** The line carries [tag], then white space, then a value of class [k]. *)
Definition carries (tag : string) (k : Re.cclass) (line : str) : Prop :=
  exists pre ws v post,
    line = pre ++ lit tag ++ ws ++ v ++ post
    /\ ws <> [] /\ Forall (fun c => Py.isspace c = true) ws
    /\ v <> [] /\ Forall (fun c => Re.in_class k c = true) v.


(** [pat in s] *)
Fixpoint occurs (pat s : str) : bool :=
  Py.is_prefix pat s
  || match s with
     | [] => false
     | _ :: s' => occurs pat s'
     end.

(** The line carries the five tags of a racer record, each with a value. *)
Definition five_tags (line : str) : Prop :=
  carries "[course]" Re.nonspace line /\ carries "[plyr]" Re.nonspace line
  /\ carries "[pts]" Re.digit line /\ carries "[herr]" Re.digit line
  /\ carries "[time]" Re.digit_or_dot line.





(** How many of the outcomes of the requests for [logs], the first being
    request number [n], satisfy [p]. *)
Fixpoint tally (p : post_outcome -> PlayRecord -> bool)
    (outcome : nat -> post_outcome) (n : nat) (logs : list PlayRecord) : nat :=
  match logs with
  | [] => O
  | log :: rest =>
      ((if p (outcome n) log then 1 else 0) + tally p outcome (S n) rest)%nat
  end.

Definition accepted (o : post_outcome) (_ : PlayRecord) : bool :=
  match o with Response 200 => true | _ => false end.
Definition flagged (o : post_outcome) (log : PlayRecord) : bool :=
  accepted o log && is_anomaly log.
Definition conflict (o : post_outcome) (_ : PlayRecord) : bool :=
  match o with Response 409 => true | _ => false end.

(** An outcome that is neither success, nor conflict, nor a connection
    failure. *)
Definition other_failure (o : post_outcome) : Prop :=
  o <> Response 200 /\ o <> Response 409 /\ o <> Raises ConnectionError.

(** C6 as the specification words it, for one record. *)
Definition sink_classifies_outcomes : Prop :=
  forall game c log w,
    let o := http w (http_calls w) in
    (o = Response 200 ->
       send_one game c log w =
       (inr (mkCounters (S (success_count c))
               (if is_anomaly log then S (anomaly_count c)
                else anomaly_count c)
               (duplicate_count c)), sent w))
    /\ (o = Response 409 ->
          send_one game c log w =
          (inr (mkCounters (success_count c) (anomaly_count c)
                  (S (duplicate_count c))), sent w))
    /\ (o = Raises ConnectionError ->
          send_one game c log w = (inr c, sent w))
    /\ (other_failure o ->
          send_one game c log w =
          (inr c, printed (MsgSendFailed game) (sent w))).

(** The summary line of a batch, if one is due. *)
Definition summary (game : string) (c : counters) : list msg :=
  if (0 <? success_count c)%nat || (0 <? duplicate_count c)%nat
  then [MsgSummary game (nonzero (success_count c))
          (nonzero (duplicate_count c)) (nonzero (anomaly_count c))]
  else [].

(** The detector after every datagram of [incoming] that decodes to a
    frame has updated it. *)
Fixpoint updated_by (incoming : list datagram_event)
    (det : MPUAnomalyDetector) : MPUAnomalyDetector :=
  match incoming with
  | [] => det
  | Datagram data :: rest =>
      match Keyboard.decode_frame data with
      | Frame f => updated_by rest (Detector.update (pitch f) (roll f) det).1
      | _ => updated_by rest det
      end
  | _ :: rest => updated_by rest det
  end.

(** C8 as the specification words it: with the library present, the port
    free and the device refused, the receiver runs and the datagrams update
    the detector. *)
Definition receiver_survives_device_failure : Prop :=
  forall incoming,
    let c := boot_controller true false true in
    receiver_started c = true
    /\ detector (deliver incoming c) = updated_by incoming Detector.init.

(** A computation that leaves the files as they are, and one that always
    returns. *)
Definition steady {A} (m : M A) : Prop := forall w, fs (m w).2 = fs w.
Definition returns {A} (m : M A) : Prop := forall w, exists a, (m w).1 = inr a.

(** What [stdout] gained from [w] to [w']. *)
Definition printed_since (w w' : World) : list msg :=
  drop (length (stdout w)) (stdout w').

(** C9 as the specification words it: the stored modification time of a
    game changes only when the parse pass of its file succeeded. *)
Definition mtime_updated_after_success : Prop :=
  forall self game path w self' w',
    (game, path) ∈ LOG_PATHS ->
    Watcher.watch_one self (game, path) w = (inr self', w') ->
    last_modified self' !! game <> last_modified self !! game ->
    forall name, MsgParseError name ∉ printed_since w w'.

(** The stored time of a game after a poll of its file. *)
Definition polled (stored : Q) (file : option File) : Q :=
  match file with
  | Some f => if PyFloat.gtb (mtime f) stored then mtime f else stored
  | None => stored
  end.

(** A pattern that cannot match at a character of class [k]. *)
Definition rejects (p : Re.pattern) (k : Re.cclass) : Prop :=
  forall c r b g caps,
    Re.in_class k c = true -> Re.match_here p b g caps (c :: r) = None.

(** [s] is digits [t], white space, digits [c], white space and a word [u]
    with no white space in it. *)
Definition shaped (s t c u : str) : Prop :=
  exists ws1 ws2,
    s = t ++ ws1 ++ c ++ ws2 ++ u
    /\ t <> [] /\ Forall (fun a => Py.isdigit a = true) t
    /\ ws1 <> [] /\ Forall (fun a => Py.isspace a = true) ws1
    /\ c <> [] /\ Forall (fun a => Py.isdigit a = true) c
    /\ ws2 <> [] /\ Forall (fun a => Py.isspace a = true) ws2
    /\ u <> [] /\ Forall (fun a => Py.isspace a = false) u.



(** ** The launcher and the menu *)

(** What [open(SUPERTUX_USERNAME_FILE, 'w')] and [f.write(username)] come
    to: the file holds the text and can be read back; the write raised
    after the open had emptied the file; or the open raised. *)
Inductive write_outcome :=
| Written (at_time : Q)
| Truncated (at_time : Q)
| OpenFails.

Definition with_file (path : string) (f : File) (w : World) : World :=
  mkWorld (<[path := f]> (fs w)) (mpu_detector w) (clock w) (http w)
    (http_calls w) (stdout w).

(** [save_username(username)]: every exception is swallowed. *)
Definition save_username (o : write_outcome) (username : str) : M unit :=
  fun w =>
    match o with
    | Written t =>
        (inr tt, with_file SUPERTUX_USERNAME_FILE (mkFile t (Some username)) w)
    | Truncated t =>
        (inr tt, with_file SUPERTUX_USERNAME_FILE (mkFile t (Some [])) w)
    | OpenFails => (inr tt, w)
    end.

(** What [subprocess.run([path])] comes to: it returns when the game ends,
    raises [FileNotFoundError], or raises another exception. *)
Inductive run_outcome := GameEnds | GameMissing | GameFails.

(** What the launcher prints, one constructor per [print] site. *)
Inductive launcher_msg :=
| MsgBadChoice
| MsgLaunching (name : string) (username : str)
| MsgGameEnded (name : string)
| MsgNotInstalled (name path : string)
| MsgRunError.

(** The dictionary [games]: path and name. *)
Definition games (choice : Z) : option (string * string) :=
  if choice =? 1 then Some ("/usr/games/neverball", "Neverball")%string
  else if choice =? 2 then Some ("/usr/games/supertux2", "SuperTux")%string
  else if choice =? 3 then Some ("/usr/games/etracer", "ETR")%string
  else None.

(** [launch_game(choice, username)]: what it prints is returned. *)
Definition launch_game (o : write_outcome) (r : run_outcome)
    (choice : Z) (username : str) : M (list launcher_msg) :=
  match games choice with
  | None => ret [MsgBadChoice]
  | Some (path, name) =>
      (if choice =? 2 then save_username o username else ret tt) ;;;
      ret (MsgLaunching name username ::
           match r with
           | GameEnds => [MsgGameEnded name]
           | GameMissing => [MsgNotInstalled name path]
           | GameFails => [MsgRunError]
           end)
  end.

(** What one turn of the menu loop of [main] does with the line typed. *)
Inductive menu_action :=
| Again            (* nothing typed: [continue] *)
| NotANumber       (* [ValueError] *)
| Quit
| Launch (choice : Z)
| ParseAll
| Status
| BadChoice.

Definition menu_action_of (line : str) : menu_action :=
  let choice := Py.strip line in
  if bool_decide (choice = []) then Again
  else
    match Py.int choice with
    | None => NotANumber
    | Some choice =>
        if choice =? 0 then Quit
        else if bool_decide (choice ∈ [1; 2; 3]) then Launch choice
        else if choice =? 4 then ParseAll
        else if choice =? 5 then Status
        else BadChoice
    end.

(** The name handed to [launch_game]: what was typed, or the default. *)
Definition player_name (line : str) : str :=
  let username := Py.strip line in
  if bool_decide (username = []) then lit "Player" else username.

(** ** The chat connections of the collector ([main.py]) *)

(** Sockets are told apart by identity, here a number. *)
Record ConnectionManager (A : Type) := mkManager {
  active_connections : list nat;
  message_history : list A
}.
Arguments mkManager {A} _ _.
Arguments active_connections {A} _.
Arguments message_history {A} _.

Inductive chat_exn :=
| NotInList      (* [ValueError] of [list.remove] *)
| SocketClosed.  (* what [accept] or [send_json] raises *)

Module Manager.

Definition init {A} : ConnectionManager A := mkManager [] [].

(** [connect]: [accepted] is whether [websocket.accept()] returns. *)
Definition connect {A} (accepted : bool) (websocket : nat)
    (self : ConnectionManager A) : chat_exn + ConnectionManager A :=
  if accepted
  then inr (mkManager (active_connections self ++ [websocket])
              (message_history self))
  else inl SocketClosed.

(** [l.remove(x)]: the first occurrence goes; [None] stands for
    [ValueError]. *)
Fixpoint remove (x : nat) (l : list nat) : option (list nat) :=
  match l with
  | [] => None
  | y :: l' => if (y =? x)%nat then Some l' else cons y <$> remove x l'
  end.

Definition disconnect {A} (websocket : nat) (self : ConnectionManager A)
  : chat_exn + ConnectionManager A :=
  match remove websocket (active_connections self) with
  | Some l => inr (mkManager l (message_history self))
  | None => inl NotInList
  end.

(** The sockets a loop of [send_json] reaches: it stops at the first one
    that raises. *)
Fixpoint send_all (send_ok : nat -> bool) (l : list nat)
  : list nat * option chat_exn :=
  match l with
  | [] => ([], None)
  | c :: l' =>
      if send_ok c
      then let '(sent, e) := send_all send_ok l' in (c :: sent, e)
      else ([], Some SocketClosed)
  end.

(** [broadcast(message)]: the manager afterwards, the sockets the message
    was sent to, and the exception that leaves the method, if any. *)
Definition broadcast {A} (send_ok : nat -> bool) (message : A)
    (self : ConnectionManager A)
  : ConnectionManager A * list nat * option chat_exn :=
  let history := message_history self ++ [message] in
  let history :=
    if (50 <? length history)%nat then drop 1 history else history in
  let self := mkManager (active_connections self) history in
  let '(sent, e) := send_all send_ok (active_connections self) in
  (self, sent, e).

Definition get_connection_count {A} (self : ConnectionManager A) : nat :=
  length (active_connections self).

(** The calls made on the one manager of the server.  A call that raises
    leaves the manager as it was when the exception left the method. *)
Inductive call (A : Type) :=
| Connect (accepted : bool) (websocket : nat)
| Disconnect (websocket : nat)
| Broadcast (send_ok : nat -> bool) (message : A).
Arguments Connect {A} _ _.
Arguments Disconnect {A} _.
Arguments Broadcast {A} _ _.

Definition step {A} (self : ConnectionManager A) (c : call A)
  : ConnectionManager A :=
  match c with
  | Connect accepted websocket =>
      match connect accepted websocket self with
      | inr self' => self'
      | inl _ => self
      end
  | Disconnect websocket =>
      match disconnect websocket self with
      | inr self' => self'
      | inl _ => self
      end
  | Broadcast send_ok message => (broadcast send_ok message self).1.1
  end.

Definition run {A} (calls : list (call A)) (self : ConnectionManager A)
  : ConnectionManager A :=
  fold_left step calls self.

(** The messages a history of calls broadcasts, in order. *)
Fixpoint messages_of {A} (calls : list (call A)) : list A :=
  match calls with
  | [] => []
  | Broadcast _ message :: rest => message :: messages_of rest
  | _ :: rest => messages_of rest
  end.

End Manager.

(** ** Replay file names ([main.py]) *)

(** The guard of [download_replay] and [stream_replay]: the status of the
    refusal, if any. *)
Definition replay_guard (filename : str) : option Z :=
  if occurs (lit "..") filename || occurs (lit "/") filename
  then Some 400 else None.

(** [os.path.expanduser(f"~/.neverball/Replays/{filename}")], [userhome]
    being the home directory without a slash at its end. *)
Definition replay_path (userhome filename : str) : str :=
  userhome ++ lit "/.neverball/Replays/" ++ filename.

(** ** The log endpoints of the collector ([main.py]) *)

(** What a request to [add_neverball_log], [add_supertux_log] or
    [add_etr_log] meets: the framework refuses the body; the query finds
    an equal row; the row is stored; or the database raises.  The three
    endpoints differ only in the columns they compare. *)
Inductive store_outcome :=
| AlreadyThere (id : Z)
| Stored (id : Z)
| Invalid
| StoreFails.

Record reply := mkReply {
  reply_status : Z;
  reply_success : option bool;   (* the field [success] of the body *)
  reply_id : option Z
}.

Definition add_log (o : store_outcome) : reply :=
  match o with
  | AlreadyThere id => mkReply 200 (Some false) (Some id)
  | Stored id => mkReply 200 (Some true) (Some id)
  | Invalid => mkReply 422 None None
  | StoreFails => mkReply 500 None None
  end.

(** ** More vocabulary *)

(** The endpoint ran to one of its two [return]s. *)
Definition answered (o : store_outcome) : bool :=
  match o with
  | AlreadyThere _ | Stored _ => true
  | Invalid | StoreFails => false
  end.

(** What [requests.post] gets from the endpoints, request by request. *)
Definition collector (outcomes : nat -> store_outcome) : nat -> post_outcome :=
  fun n => Response (reply_status (add_log (outcomes n))).

(** What the history of a detector has made of it: the configuration of
    [__init__], the first ten samples seen, and both baselines present
    exactly when ten samples were seen. *)
Definition consistent (seen : list (Q * Q)) (self : MPUAnomalyDetector)
  : Prop :=
  enabled self = true /\ check_interval self = 2%Q
  /\ pitch_threshold self = 15%Q /\ roll_threshold self = 15%Q
  /\ calibration_count self = 10%nat
  /\ calibration_samples self = take 10 seen
  /\ (is_Some (baseline_pitch self) <-> (10 <= length seen)%nat)
  /\ (is_Some (baseline_roll self) <-> (10 <= length seen)%nat).


(** How often a character occurs in a text. *)
Fixpoint occurrences (c : ascii) (s : str) : nat :=
  match s with
  | [] => O
  | a :: s' => ((if Ascii.eqb a c then 1 else 0) + occurrences c s')%nat
  end.

(** The player name the name file stands for. *)
Definition saved_name (files : gmap string File) : str :=
  match files !! SUPERTUX_USERNAME_FILE with
  | Some f =>
      match content f with
      | Some text =>
          if bool_decide (Py.strip (Py.read text) = []) then lit "Player"
          else Py.strip (Py.read text)
      | None => lit "Player"
      end
  | None => lit "Player"
  end.

(** The modification time [__init__] stores for a file: zero when the file
    is absent. *)
Definition stamp (file : option File) : Q :=
  match file with
  | Some f => mtime f
  | None => 0%Q
  end.

(** A computation that sends no request. *)
Definition offline {A} (m : M A) : Prop :=
  forall w, http_calls (m w).2 = http_calls w /\ http (m w).2 = http w.



(** The last [n] elements of a list. *)
Definition last_n {A} (n : nat) (l : list A) : list A :=
  drop (length l - n) l.

(** ** Sample inputs *)

Module Sample.

(** Ten level samples, then a tilt of forty degrees, then one check. *)
Definition calibrate : list Detector.call :=
  replicate 10 (Detector.Update 0%Q 0%Q) ++ [Detector.Update (40 # 1)%Q 0%Q].

(** Readings 100, 101.5, 102.5, 102.5, ... *)
Definition clock_a : Clock :=
  mkClock (fun n => match n with
                    | O => (100 # 1)%Q
                    | S O => (203 # 2)%Q
                    | _ => (205 # 2)%Q
                    end) 0.

(** Readings 100, 101, 101, ...: all inside the window from 100 to 102. *)
Definition clock_b : Clock :=
  mkClock (fun n => match n with O => (100 # 1)%Q | _ => (101 # 1)%Q end) 0.

(** Calibrated, tilted, and compared once at reading 100. *)
Definition checked_once
  : list bool * MPUAnomalyDetector * Clock :=
  Detector.run (calibrate ++ [Detector.CheckAnomaly]) Detector.init clock_a.

(** Calibrated and tilted, never checked. *)
Definition tilted : MPUAnomalyDetector :=
  (Detector.run calibrate Detector.init clock_b).1.2.



(** A device that was created, with a bound socket. *)
Definition device : VirtualKeyboard := mkKeyboard (Some []) (Some Bound) true.

(** Stick at the low threshold, and one step below it; no button held. *)
Definition payload_1000 : str := lit "1000,2000,0,0,0,0,0,0.0,0.0".
Definition payload_999 : str := lit "999,2000,0,0,0,0,0,0.0,0.0".


(** A world with no files, a fresh detector and a collector that accepts. *)
Definition world0 : World :=
  mkWorld ∅ Detector.init clock_a (fun _ => Response 200) 0 [].

(** Racer lines: a complete one, one whose time is not a number, and one
    without the herring tag. *)
Definition racer_good : str :=
  lit "[course] bunny_hill [plyr] tux [pts] 120 [herr] 7 [time] 83.456".
Definition racer_bad_time : str :=
  lit "[course] bunny_hill [plyr] tux [pts] 120 [herr] 7 [time] 1.2.3".

(** A collector that answers with a server error. *)
Definition world_500 : World :=
  mkWorld ∅ Detector.init clock_a (fun _ => Response 500) 0 [].

(** One play record. *)
Definition alice : PlayRecord :=
  NeverballRecord
    (mkNeverball (lit "alice") 1 1234 56 (lit "00:12") true).

(** A racer score file, modified at time 5, whose second line has a time
    that is not a number. *)
Definition racer_file : File :=
  mkFile (5 # 1)%Q
    (Some (racer_good ++ [Py.LF] ++ racer_bad_time ++ [Py.LF])).

Definition world_racer : World :=
  mkWorld {[ "~/.config/etr/highscore"%string := racer_file ]}
    Detector.init clock_a (fun _ => Response 200) 0 [].

(** A watcher that saw no file when it started. *)
Definition watcher : LogWatcher :=
  mkWatcher true
    (<["etr"%string := 0%Q]>
       (<["supertux"%string := 0%Q]> {[ "neverball"%string := 0%Q ]})).

(** A Neverball score file: the same line twice, then a placeholder. *)
Definition neverball_text : str :=
  lit "1234 56 alice" ++ [Py.LF] ++ lit "1234 56 alice" ++ [Py.LF]
  ++ lit "9999 0 Easy" ++ [Py.LF].

Definition world_neverball : World :=
  mkWorld
    {[ "~/.neverball/Scores/easy.txt"%string
       := mkFile (5 # 1)%Q (Some neverball_text) ]}
    Detector.init clock_a (fun _ => Response 200) 0 [].


(** A Neverball score file with two plays, parsed by a calibrated and
    tilted detector while the clock stays inside one window. *)
Definition two_plays : str :=
  lit "1234 56 alice" ++ [Py.LF] ++ lit "2000 3 bob" ++ [Py.LF].

Definition world_tilted : World :=
  mkWorld
    {[ "~/.neverball/Scores/easy.txt"%string
       := mkFile (5 # 1)%Q (Some two_plays) ]}
    tilted clock_b (fun _ => Response 200) 0 [].

(** A racer score file that is there but cannot be read. *)
Definition world_locked : World :=
  mkWorld {[ "~/.config/etr/highscore"%string := mkFile (5 # 1)%Q None ]}
    Detector.init clock_a (fun _ => Response 200) 0 [].

(** One level of a SuperTux save file. *)
Definition level_entry (name coins secrets time : string) : str :=
  "("%char :: DQUOTE :: lit name ++ lit ".stl" ++ [DQUOTE]
  ++ lit " (perfect #f) (" ++ [DQUOTE] ++ lit "statistics" ++ [DQUOTE]
  ++ lit " (coins-collected " ++ lit coins ++ lit ") (secrets-found "
  ++ lit secrets ++ lit ") (time-needed " ++ lit time ++ lit "))".

(** A save file with two levels, without and with a name file. *)
Definition save_file : File :=
  mkFile (7 # 1)%Q
    (Some (level_entry "welcome_antarctica" "10" "1" "12.5" ++ [Py.LF]
           ++ level_entry "journey_begins" "25" "0" "80.25" ++ [Py.LF])).

Definition world_supertux_unnamed : World :=
  mkWorld
    {[ "~/.local/share/supertux2/profile1/world1.stsg"%string := save_file ]}
    Detector.init clock_a (fun _ => Response 200) 0 [].

Definition world_supertux : World :=
  with_file SUPERTUX_USERNAME_FILE
    (mkFile (6 # 1)%Q (Some (lit " tux" ++ [Py.LF])))
    world_supertux_unnamed.

(** A collector that stores the first record and finds every later one
    already there. *)
Definition world_collector : World :=
  mkWorld ∅ Detector.init clock_a
    (collector (fun n => match n with
                         | O => Stored 1
                         | _ => AlreadyThere 1
                         end))
    0 [].

End Sample.

(** * Properties *)

(** ** Numbers *)

Lemma ltb_lt x y : PyFloat.ltb x y = true <-> (x < y)%Q.
Proof.
  unfold PyFloat.ltb. rewrite negb_true_iff. split.
  - intros H. apply Qnot_le_lt. intros Hle.
    apply Qle_bool_iff in Hle. congruence.
  - intros H. destruct (Qle_bool y x) eqn:E; [|reflexivity].
    apply Qle_bool_iff in E. exfalso. apply (Qlt_not_le _ _ H E).
Qed.

Lemma ltb_ge x y : PyFloat.ltb x y = false <-> (y <= x)%Q.
Proof.
  unfold PyFloat.ltb. rewrite negb_false_iff. apply Qle_bool_iff.
Qed.



(** ** The detector *)

Section DetectorFacts.

Import Detector.

Lemma update_frame pitch roll self :
  let self' := (update pitch roll self).1 in
  enabled self' = enabled self
  /\ last_check_time self' = last_check_time self
  /\ check_interval self' = check_interval self
  /\ pitch_threshold self' = pitch_threshold self
  /\ roll_threshold self' = roll_threshold self
  /\ calibration_count self' = calibration_count self.
Proof.
  unfold update; simpl.
  destruct (baseline_pitch self); simpl; [tauto|].
  destruct (_ <=? _)%nat; simpl; tauto.
Qed.

(** Past calibration [update] only records the current readings. *)
Lemma update_armed pitch roll self p :
  baseline_pitch self = Some p ->
  update pitch roll self = (set_current pitch roll self, []).
Proof. intros H. unfold update; simpl. now rewrite H. Qed.

(** During calibration [update] appends the sample, and fixes the
    baseline when the count is reached. *)
Lemma update_calibrating pitch roll self :
  baseline_pitch self = None ->
  let samples := calibration_samples self ++ [(pitch, roll)] in
  (update pitch roll self).1 =
    if (calibration_count self <=? length samples)%nat
    then set_baseline (average (fst <$> samples)) (average (snd <$> samples))
           (set_samples samples (set_current pitch roll self))
    else set_samples samples (set_current pitch roll self).
Proof.
  intros H. unfold update; simpl. rewrite H; simpl.
  now destruct (_ <=? _)%nat.
Qed.

Lemma check_calibrating self clk :
  baseline_pitch self = None ->
  check_anomaly self clk = (false, self, clk, []).
Proof.
  intros H. unfold check_anomaly. rewrite H. now destruct (enabled self).
Qed.

(** [check_anomaly] never touches the baseline, the samples or the
    configuration. *)
Lemma check_frame self clk :
  let self' := (check_anomaly self clk).1.1.2 in
  self' = self \/ self' = set_last_check_time (now clk) self.
Proof.
  unfold check_anomaly, now.
  destruct (enabled self), (baseline_pitch self); simpl; auto.
  destruct (PyFloat.ltb _ _); simpl; auto.
  destruct (_ || _); simpl; auto.
Qed.

Lemma check_limited self clk :
  armed self ->
  (now clk - last_check_time self < 2)%Q ->
  check_anomaly self clk = (false, self, tick clk, []).
Proof.
  intros (He & [p Hp] & Hi) Hlt. unfold check_anomaly.
  rewrite He, Hp, Hi. simpl.
  apply ltb_lt in Hlt. unfold now in Hlt. simpl in Hlt. now rewrite Hlt.
Qed.

Lemma check_compares self clk :
  armed self ->
  pitch_threshold self = 15%Q -> roll_threshold self = 15%Q ->
  (2 <= now clk - last_check_time self)%Q ->
  (check_anomaly self clk).1 =
    (deviates self, set_last_check_time (now clk) self, tick clk).
Proof.
  intros (He & [p Hp] & Hi) Hpt Hrt Hge. unfold check_anomaly, deviates.
  rewrite He, Hp, Hi. simpl.
  apply ltb_ge in Hge. unfold now in *. simpl in *. rewrite Hge.
  rewrite Hpt, Hrt.
  now destruct (_ || _).
Qed.

End DetectorFacts.

Section DetectorHistories.

Import Detector.

Lemma run_update pitch roll rest self clk :
  run (Update pitch roll :: rest) self clk =
  run rest (update pitch roll self).1 clk.
Proof. reflexivity. Qed.

Lemma run_check rest self clk :
  run (CheckAnomaly :: rest) self clk =
  let c := check_anomaly self clk in
  let r := run rest c.1.1.2 c.1.2 in
  (c.1.1.1 :: r.1.1, r.1.2, r.2).
Proof.
  simpl. destruct (check_anomaly self clk) as [[[b d] k] o]. simpl.
  now destruct (run rest d k) as [[bs d'] k'].
Qed.



Lemma trues_none results : trues results = O -> forall b, b ∈ results -> b = false.
Proof.
  induction results as [|x l IH]; intros H b Hb.
  - inversion Hb.
  - simpl in H. apply elem_of_cons in Hb as [->|Hb].
    + destruct x; [discriminate | reflexivity].
    + apply IH; [destruct x; simpl in H; lia | exact Hb].
Qed.

(** Inside one window every check after a comparing one is limited. *)
Lemma run_quiet calls : forall self clk w,
  check_interval self = 2%Q ->
  (forall n, (w <= time_source clk n < w + 2)%Q) ->
  (w <= last_check_time self)%Q ->
  trues (run calls self clk).1.1 = O.
Proof.
  induction calls as [|[pitch roll|] rest IH]; intros self clk w Hi Hw Hl.
  - reflexivity.
  - rewrite run_update.
    destruct (update_frame pitch roll self) as (_ & E1 & E2 & _).
    apply (IH _ _ w); [congruence | exact Hw | now rewrite E1].
  - rewrite run_check. simpl.
    assert (Hlim : (now clk - last_check_time self < 2)%Q).
    { unfold now; simpl. destruct (Hw (time_calls clk)). lra. }
    assert (Hres : check_anomaly self clk = (false, self, clk, [])
                   \/ check_anomaly self clk = (false, self, tick clk, [])).
    { unfold check_anomaly.
      destruct (enabled self); [|auto].
      destruct (baseline_pitch self); [|auto].
      right. simpl. rewrite Hi. apply ltb_lt in Hlim.
      unfold now in Hlim. simpl in Hlim. now rewrite Hlim. }
    destruct Hres as [-> | ->]; simpl; apply (IH _ _ w); auto.
Qed.

(** The three ways [check_anomaly] can go. *)
Lemma check_cases self clk :
  check_anomaly self clk = (false, self, clk, [])
  \/ check_anomaly self clk = (false, self, tick clk, [])
  \/ exists b out,
       check_anomaly self clk =
       (b, set_last_check_time (now clk) self, tick clk, out).
Proof.
  unfold check_anomaly.
  destruct (enabled self); [|auto].
  destruct (baseline_pitch self); [|auto].
  simpl. destruct (PyFloat.ltb _ _); [auto|].
  right; right. destruct (_ || _); eauto.
Qed.

Lemma run_window calls : forall self clk w,
  check_interval self = 2%Q ->
  (forall n, (w <= time_source clk n < w + 2)%Q) ->
  (trues (run calls self clk).1.1 <= 1)%nat.
Proof.
  induction calls as [|[pitch roll|] rest IH]; intros self clk w Hi Hw.
  - simpl. lia.
  - rewrite run_update.
    destruct (update_frame pitch roll self) as (_ & _ & E2 & _).
    apply (IH _ _ w); [congruence | exact Hw].
  - rewrite run_check.
    destruct (check_cases self clk) as [-> | [-> | (b & out & ->)]]; simpl.
    + apply (IH _ _ w); assumption.
    + apply (IH _ _ w); assumption.
    + rewrite (run_quiet rest _ _ w); simpl; auto.
      * destruct b; simpl; lia.
      * unfold now; simpl. apply Hw.
Qed.

End DetectorHistories.

(** ** Claims about the detector *)



(** C3.  A check on an armed detector made less than two seconds after the
    last comparing check answers false, leaves the detector as it was and
    prints nothing, whatever the current readings are; and in any history
    whose clock readings all lie in one window of two seconds at most one
    check answers true. *)
Theorem limited_check_answers_false :
  (forall self clk,
     armed self ->
     (now clk - last_check_time self < 2)%Q ->
     Detector.check_anomaly self clk = (false, self, tick clk, []))
  /\ (forall calls self clk w,
        check_interval self = 2%Q ->
        (forall n, (w <= time_source clk n < w + 2)%Q) ->
        (trues (Detector.run calls self clk).1.1 <= 1)%nat).
Proof.
  split.
  - exact check_limited.
  - intros calls self clk w. apply run_window.
Qed.

Lemma limited_check_answers_false_witness :
  (armed Sample.checked_once.1.2
   /\ deviates Sample.checked_once.1.2 = true
   /\ (now Sample.checked_once.2
        - last_check_time Sample.checked_once.1.2 < 2)%Q
   /\ (Detector.check_anomaly Sample.checked_once.1.2 Sample.checked_once.2)
        .1.1.1 = false)
  /\ (trues (Detector.run [Detector.CheckAnomaly; Detector.CheckAnomaly; Detector.CheckAnomaly]
               Sample.tilted Sample.clock_b).1.1 <= 1)%nat.
Proof.
  destruct limited_check_answers_false as [H1 H2].
  assert (Ha : armed Sample.checked_once.1.2).
  { repeat split. vm_compute. eexists. reflexivity. }
  assert (Hl : (now Sample.checked_once.2
                - last_check_time Sample.checked_once.1.2 < 2)%Q)
    by (vm_compute; reflexivity).
  split.
  - split; [exact Ha|]. split; [vm_compute; reflexivity|].
    split; [exact Hl|]. rewrite (H1 _ _ Ha Hl). reflexivity.
  - apply (H2 _ _ _ (100 # 1)%Q); [reflexivity|].
    intros [|n]; split; vm_compute; congruence.
Defined.

(** C10.  A check on an armed detector that arrives less than two seconds
    after the last comparing check leaves the whole detector state as it
    was, [last_check_time] included; so the check after it is limited or
    compares according to the time elapsed since the last comparing check,
    not since the limited call in between. *)
Theorem limited_check_keeps_state (self : MPUAnomalyDetector) (clk : Clock) :
  armed self ->
  pitch_threshold self = 15%Q -> roll_threshold self = 15%Q ->
  (now clk - last_check_time self < 2)%Q ->
  let first := Detector.check_anomaly self clk in
  let second := Detector.check_anomaly first.1.1.2 first.1.2 in
  first.1.1.2 = self
  /\ last_check_time first.1.1.2 = last_check_time self
  /\ ((now (tick clk) - last_check_time self < 2)%Q ->
        second.1.1.1 = false /\ second.1.1.2 = self)
  /\ ((2 <= now (tick clk) - last_check_time self)%Q ->
        second.1.1.1 = deviates self
        /\ last_check_time second.1.1.2 = now (tick clk)).
Proof.
  intros Ha Hp Hr Hlt first second. subst first second.
  rewrite (check_limited self clk Ha Hlt). simpl.
  split; [reflexivity|]. split; [reflexivity|]. split.
  - intros H. now rewrite (check_limited self (tick clk) Ha H).
  - intros H.
    pose proof (check_compares self (tick clk) Ha Hp Hr H) as E.
    destruct (Detector.check_anomaly self (tick clk)) as [[[b d] k] o].
    simpl in *. injection E as -> -> _. split; reflexivity.
Qed.

Lemma limited_check_keeps_state_witness :
  let self := Sample.checked_once.1.2 in
  let clk := Sample.checked_once.2 in
  (now clk - last_check_time self < 2)%Q
  /\ (now (tick clk) - now clk < 2)%Q
  /\ (Detector.check_anomaly self clk).1.1.2 = self
  /\ (Detector.check_anomaly self (tick clk)).1.1.1 = true
  /\ last_check_time (Detector.check_anomaly self (tick clk)).1.1.2
     = now (tick clk).
Proof.
  intros self clk.
  assert (Ha : armed self).
  { repeat split. vm_compute. eexists. reflexivity. }
  assert (Hl : (now clk - last_check_time self < 2)%Q)
    by (vm_compute; reflexivity).
  assert (Hg : (2 <= now (tick clk) - last_check_time self)%Q)
    by (vm_compute; congruence).
  destruct (limited_check_keeps_state self clk Ha eq_refl eq_refl Hl)
    as (E1 & _ & _ & H2).
  split; [exact Hl|]. split; [vm_compute; reflexivity|].
  split; [exact E1|].
  rewrite E1 in H2.
  replace (Detector.check_anomaly self clk).1.2 with (tick clk) in H2
    by (now rewrite (check_limited self clk Ha Hl)).
  destruct (H2 Hg) as [Hb Ht]. split; [|exact Ht].
  rewrite Hb. vm_compute. reflexivity.
Defined.

(** ** The controller side *)

Section KeyboardFacts.

Import Keyboard.

Lemma last_written_app k evs evs' cur :
  last_written k (evs ++ evs') cur = last_written k evs' (last_written k evs cur).
Proof.
  revert cur. induction evs as [|[k' v|] evs IH]; intros cur; simpl; auto.
Qed.

(** After the writes of one frame every key holds the level of its
    decision, whatever the device had received before. *)
Lemma pressed_after_emit received ks :
  let evs := received ++ emit ks in
  pressed KEY_RIGHT evs = Some (Right ks)
  /\ pressed KEY_LEFT evs = Some (Left ks)
  /\ pressed KEY_DOWN evs = Some (Down ks)
  /\ pressed KEY_UP evs = Some (Up ks)
  /\ pressed KEY_ENTER evs = Some (Enter ks)
  /\ pressed KEY_SPACE evs = Some (Space ks).
Proof.
  unfold pressed. simpl. rewrite !last_written_app. simpl.
  destruct ks as [[] [] [] [] [] []]; simpl; repeat split; reflexivity.
Qed.

Lemma process_frame self data det f received :
  decode_frame data = Frame f ->
  keyboard self = Some received ->
  _process_data self data det =
  (None,
   mkKeyboard (Some (received ++ emit (key_state f))) (sock self) (running self),
   (Detector.update (pitch f) (roll f) det).1,
   (Detector.update (pitch f) (roll f) det).2).
Proof.
  intros Hd Hk. unfold _process_data. rewrite Hd.
  destruct (Detector.update _ _ det) as [d o]. now rewrite Hk.
Qed.



End KeyboardFacts.

(** C1.  For every payload that decodes to a frame, the device holds after
    [_process_data]: right = (x < 1000) or btnRight, left = (x > 3000) or
    btnLeft, down = (y > 3000) or btnDown, up = (y < 1000) or btnUp, enter =
    switchPressed, and space = up.  The comparisons are strict: with the
    right button released, x = 1000 gives right released and x = 999 gives
    right pressed. *)
Theorem keys_follow_frame :
  (forall data f self received det,
     Keyboard.decode_frame data = Frame f ->
     keyboard self = Some received ->
     exists evs,
       keyboard (Keyboard._process_data self data det).1.1.2 = Some evs
       /\ Keyboard.pressed KEY_RIGHT evs
          = Some ((x_val f <? 1000) || btn_right f)
       /\ Keyboard.pressed KEY_LEFT evs
          = Some ((x_val f >? 3000) || btn_left f)
       /\ Keyboard.pressed KEY_DOWN evs
          = Some ((y_val f >? 3000) || btn_down f)
       /\ Keyboard.pressed KEY_UP evs
          = Some ((y_val f <? 1000) || btn_up f)
       /\ Keyboard.pressed KEY_ENTER evs = Some (sw_pressed f)
       /\ Keyboard.pressed KEY_SPACE evs = Keyboard.pressed KEY_UP evs)
  /\ (forall f, btn_right f = false ->
        (x_val f = 1000 -> Right (Keyboard.key_state f) = false)
        /\ (x_val f = 999 -> Right (Keyboard.key_state f) = true))
  /\ (forall f, Space (Keyboard.key_state f) = Up (Keyboard.key_state f)).
Proof.
  split; [|split].
  - intros data f self received det Hd Hk.
    rewrite (process_frame self data det f received Hd Hk). simpl.
    eexists. split; [reflexivity|].
    destruct (pressed_after_emit received (Keyboard.key_state f))
      as (-> & -> & -> & -> & -> & ->).
    repeat split; reflexivity.
  - intros f Hb. unfold Keyboard.key_state. simpl. rewrite Hb.
    split; intros ->; reflexivity.
  - reflexivity.
Qed.

Lemma keys_follow_frame_witness :
  (exists f, Keyboard.decode_frame Sample.payload_999 = Frame f
             /\ x_val f = 999 /\ btn_right f = false
             /\ Right (Keyboard.key_state f) = true)
  /\ (exists f, Keyboard.decode_frame Sample.payload_1000 = Frame f
               /\ x_val f = 1000 /\ btn_right f = false
               /\ Right (Keyboard.key_state f) = false)
  /\ exists evs,
       keyboard (Keyboard._process_data Sample.device Sample.payload_999
                   Detector.init).1.1.2 = Some evs
       /\ Keyboard.pressed KEY_RIGHT evs = Some true
       /\ Keyboard.pressed KEY_SPACE evs = Keyboard.pressed KEY_UP evs.
Proof.
  destruct keys_follow_frame as (H1 & H2 & _).
  split; [|split].
  - eexists. split; [vm_compute; reflexivity|].
    split; [reflexivity|]. split; [reflexivity|].
    eapply H2; reflexivity.
  - eexists. split; [vm_compute; reflexivity|].
    split; [reflexivity|]. split; [reflexivity|].
    eapply H2; reflexivity.
  - assert (Hd : Keyboard.decode_frame Sample.payload_999
                 = Frame (mkFrame 999 2000 false false false false false (0 # 10) (0 # 10)))
      by (vm_compute; reflexivity).
    destruct (H1 _ _ Sample.device [] Detector.init Hd eq_refl)
      as (evs & He & Hr & _ & _ & _ & _ & Hs).
    exists evs. split; [exact He|]. split; [exact Hr | exact Hs].
Defined.



(** ** The pattern matcher *)

Section ReFacts.

Import Re.

Lemma first_down_none {A} (f : nat -> option A) n :
  (forall j, (1 <= j <= n)%nat -> f j = None) -> first_down f n = None.
Proof.
  induction n as [|n IH]; intros H; simpl; [reflexivity|].
  rewrite (H (S n)) by lia. apply IH. intros j Hj. apply H. lia.
Qed.

(** A continuation that fails on every shorter run makes the greedy run the
    only candidate. *)
Lemma first_down_greedy {A} (f : nat -> option A) n :
  (forall j, (1 <= j < n)%nat -> f j = None) ->
  first_down f n = match n with O => None | S _ => f n end.
Proof.
  destruct n as [|n]; intros H; simpl; [reflexivity|].
  destruct (f (S n)); [reflexivity|].
  apply first_down_none. intros j Hj. apply H. lia.
Qed.

Lemma run_le k s : (run k s <= length s)%nat.
Proof. induction s as [|c s IH]; simpl; [lia|]. destruct (in_class k c); simpl; lia. Qed.

Lemma run_take k s : Forall (fun c => in_class k c = true) (take (run k s) s).
Proof.
  induction s as [|c s IH]; simpl; [constructor|].
  destruct (in_class k c) eqn:E; simpl; [|constructor].
  constructor; assumption.
Qed.

(** Inside the run every position holds a character of the class. *)
Lemma run_inside k s n :
  (n < run k s)%nat ->
  exists c r, drop n s = c :: r /\ in_class k c = true.
Proof.
  revert n. induction s as [|c s IH]; intros n H; simpl in H; [lia|].
  destruct (in_class k c) eqn:E; [|lia].
  destruct n as [|n]; simpl; [eauto|]. apply IH. lia.
Qed.

Lemma run_app k w rest :
  Forall (fun c => in_class k c = true) w ->
  run k (w ++ rest) = (length w + run k rest)%nat.
Proof.
  induction 1 as [|c w Hc Hw IH]; simpl; [reflexivity|].
  now rewrite Hc, IH.
Qed.

Lemma run_head_out k c s : in_class k c = false -> run k (c :: s) = O.
Proof. intros H. simpl. now rewrite H. Qed.

Lemma is_prefix_spec p s :
  Py.is_prefix p s = true <-> exists r, s = p ++ r.
Proof.
  revert s. induction p as [|a p IH]; intros s; simpl.
  - split; eauto.
  - destruct s as [|b s].
    + split; [discriminate | intros [r Hr]; discriminate].
    + rewrite andb_true_iff, IH. split.
      * intros [Hab [r ->]]. apply Ascii.eqb_eq in Hab as ->. eauto.
      * intros [r [= -> ->]]. split; [apply Ascii.eqb_refl | eauto].
Qed.

End ReFacts.

Section TagPatterns.

Import Re.

Lemma solid_digit : solid digit.
Proof. intros [[] [] [] [] [] [] [] []]; vm_compute; congruence. Qed.

Lemma solid_nonspace : solid nonspace.
Proof. intros c. simpl. now destruct (Py.isspace c). Qed.

Lemma solid_digit_or_dot : solid digit_or_dot.
Proof. intros [[] [] [] [] [] [] [] []]; vm_compute; congruence. Qed.

(** The match of a tag pattern, without backtracking. *)
Lemma tag_match_eq tag k bol s :
  solid k ->
  match_here (tag_pattern tag k) bol None [] s =
  if Py.is_prefix (lit tag) s
  then
    let s' := drop (length (lit tag)) s in
    let x := drop (run space s') s' in
    if (0 <? run space s')%nat && (0 <? run k x)%nat
    then Some ([take (run k x) x], drop (run k x) x)
    else None
  else None.
Proof.
  intros Hk. unfold tag_pattern. cbn [match_here].
  destruct (Py.is_prefix (lit tag) s); [|reflexivity].
  cbn zeta. set (s' := drop (length (lit tag)) s).
  rewrite first_down_greedy.
  - destruct (run space s') as [|n] eqn:En; [reflexivity|]. cbn [Nat.ltb Nat.leb andb].
    rewrite <- En. set (x := drop (run space s') s').
    destruct (run k x); reflexivity.
  - intros j Hj.
    destruct (run_inside space s' j) as (c & r & -> & Hc); [lia|].
    simpl in Hc.
    assert (E : run k (c :: r) = O).
    { simpl. destruct (in_class k c) eqn:E; [|reflexivity].
      apply Hk in E. congruence. }
    now rewrite E.
Qed.

Lemma tag_match_sound tag k bol s caps rest :
  solid k ->
  match_here (tag_pattern tag k) bol None [] s = Some (caps, rest) ->
  exists ws v,
    s = lit tag ++ ws ++ v ++ rest /\ caps = [v]
    /\ ws <> [] /\ Forall (fun c => Py.isspace c = true) ws
    /\ v <> [] /\ Forall (fun c => in_class k c = true) v.
Proof.
  intros Hk. rewrite (tag_match_eq tag k bol s Hk).
  destruct (Py.is_prefix (lit tag) s) eqn:Ep; [|discriminate].
  apply is_prefix_spec in Ep as [s' ->].
  rewrite drop_app_length. cbn zeta.
  destruct (0 <? run space s')%nat eqn:E1; [|discriminate].
  destruct (0 <? run k (drop (run space s') s'))%nat eqn:E2; [|discriminate].
  simpl. intros [= <- <-].
  apply Nat.ltb_lt in E1, E2.
  exists (take (run space s') s'),
    (take (run k (drop (run space s') s')) (drop (run space s') s')).
  rewrite !take_drop. split; [reflexivity|]. split; [reflexivity|].
  split.
  { intros E. apply (f_equal length) in E. rewrite length_take in E.
    pose proof (run_le space s'). simpl in E. lia. }
  split; [apply (run_take space)|].
  split; [|apply run_take].
  intros E. apply (f_equal length) in E. rewrite length_take in E.
  pose proof (run_le k (drop (run space s') s')). simpl in E. lia.
Qed.

Lemma tag_match_complete tag k bol ws v post :
  solid k ->
  ws <> [] -> Forall (fun c => Py.isspace c = true) ws ->
  v <> [] -> Forall (fun c => in_class k c = true) v ->
  is_Some (match_here (tag_pattern tag k) bol None []
             (lit tag ++ ws ++ v ++ post)).
Proof.
  intros Hk Hws Fws Hv Fv. rewrite (tag_match_eq tag k bol _ Hk).
  assert (Ep : Py.is_prefix (lit tag) (lit tag ++ ws ++ v ++ post) = true)
    by (apply is_prefix_spec; eauto).
  rewrite Ep, drop_app_length. cbn zeta.
  assert (Er : run space (ws ++ v ++ post) = length ws).
  { rewrite (run_app space ws) by exact Fws.
    destruct v as [|c v]; [congruence|]. inversion Fv; subst.
    simpl. rewrite (Hk c) by assumption. lia. }
  rewrite Er, drop_app_length, (run_app k v) by exact Fv.
  destruct ws; [congruence|]. destruct v; [congruence|]. simpl. eauto.
Qed.

Lemma search_from_sound p bol s caps :
  search_from p bol s = Some caps ->
  exists pre suf b rest,
    s = pre ++ suf /\ match_here p b None [] suf = Some (caps, rest).
Proof.
  revert bol. induction s as [|c s IH]; intros bol; simpl.
  - destruct (match_here p bol None [] []) as [[caps' rest]|] eqn:E;
      [|discriminate].
    intros [= <-]. exists [], [], bol, rest. auto.
  - destruct (match_here p bol None [] (c :: s)) as [[caps' rest]|] eqn:E.
    + intros [= <-]. exists [], (c :: s), bol, rest. auto.
    + intros H. destruct (IH false H) as (pre & suf & b & rest & -> & Hm).
      exists (c :: pre), suf, b, rest. auto.
Qed.

Lemma search_from_complete p bol pre suf :
  (forall b, is_Some (match_here p b None [] suf)) ->
  is_Some (search_from p bol (pre ++ suf)).
Proof.
  intros Hm. revert bol.
  induction pre as [|c pre IH]; intros bol.
  - simpl. destruct suf as [|c suf]; simpl;
      destruct (Hm bol) as [[caps rest] ->]; eauto.
  - simpl. destruct (match_here p bol None [] (c :: pre ++ suf)) as [[]|];
      [eauto | apply IH].
Qed.

(** A search for a tag pattern succeeds exactly on the lines that carry the
    tag, and captures one non-empty value of the class. *)
Lemma search_tag tag k line :
  solid k ->
  (is_Some (search (tag_pattern tag k) line) <-> carries tag k line)
  /\ (forall caps,
        search (tag_pattern tag k) line = Some caps ->
        exists v, caps = [v] /\ v <> []
                  /\ Forall (fun c => in_class k c = true) v).
Proof.
  intros Hk. split; [split|].
  - intros [caps H]. apply search_from_sound in H
      as (pre & suf & b & rest & -> & Hm).
    apply (tag_match_sound _ _ _ _ _ _ Hk) in Hm
      as (ws & v & -> & _ & ? & ? & ? & ?).
    exists pre, ws, v, rest. auto.
  - intros (pre & ws & v & post & -> & ? & ? & ? & ?).
    apply search_from_complete. intros b.
    now apply tag_match_complete.
  - intros caps H. apply search_from_sound in H
      as (pre & suf & b & rest & -> & Hm).
    apply (tag_match_sound _ _ _ _ _ _ Hk) in Hm
      as (ws & v & -> & -> & ? & ? & ? & ?).
    eauto.
Qed.


End TagPatterns.

(** ** Conversions *)

Section Conversions.

Lemma lstrip_head p c s : p c = false -> Py.lstrip_of p (c :: s) = c :: s.
Proof. intros H. simpl. now rewrite H. Qed.

(** Text that neither starts nor ends with a character of [p] is its own
    strip. *)
Lemma strip_solid p (v : str) :
  v <> [] -> Forall (fun c => p c = false) v -> Py.strip_of p v = v.
Proof.
  intros Hv Fv. unfold Py.strip_of.
  destruct v as [|c v]; [congruence|].
  rewrite lstrip_head by (now inversion Fv).
  assert (Fr : Forall (fun c => p c = false) (rev (c :: v)))
    by (now apply Forall_rev).
  destruct (rev (c :: v)) as [|d r] eqn:E.
  - apply (f_equal (@length ascii)) in E. rewrite length_rev in E. discriminate.
  - rewrite lstrip_head by (now inversion Fr).
    rewrite <- E. apply rev_involutive.
Qed.

Lemma digit_plain c :
  Py.isdigit c = true ->
  Py.ispadding c = false /\ Ascii.eqb c "-" = false /\ Ascii.eqb c "+" = false
  /\ Ascii.eqb c "_" = false /\ 0 <= Py.digit_value c <= 9.
Proof.
  destruct c as [[] [] [] [] [] [] [] []]; vm_compute; intuition congruence.
Qed.

Lemma digitpart_tail_digits (v : str) :
  Forall (fun c => Py.isdigit c = true) v -> Py.digitpart_tail v = (v, []).
Proof.
  induction 1 as [|c v Hc Hv IH]; simpl; [reflexivity|].
  now rewrite Hc, IH.
Qed.

(** [int] reads a run of digits as the number it spells. *)
Lemma int_digits (v : str) :
  v <> [] -> Forall (fun c => Py.isdigit c = true) v ->
  Py.int v = Some (Py.digits_value v).
Proof.
  intros Hv Fv. unfold Py.int.
  rewrite strip_solid; [|exact Hv|].
  2:{ eapply Forall_impl; [exact Fv|]. intros c Hc. now apply digit_plain. }
  destruct v as [|c v]; [congruence|].
  inversion Fv as [|? ? Hc Fv']; subst.
  destruct (digit_plain c Hc) as (_ & Em & Ep & _).
  unfold Py.sign. rewrite Em, Ep. unfold Py.digitpart. rewrite Hc.
  now rewrite digitpart_tail_digits.
Qed.



End Conversions.

(** ** The world *)

Section WorldFacts.

Lemma check_world w :
  exists b w',
    mpu_check_anomaly w = (inr b, w')
    /\ fs w' = fs w /\ http w' = http w /\ http_calls w' = http_calls w.
Proof.
  unfold mpu_check_anomaly.
  destruct (Detector.check_anomaly (mpu_detector w) (clock w))
    as [[[b d] k] o].
  eexists _, _. repeat split.
Qed.

End WorldFacts.

(** ** The racer parser *)

Section RacerFacts.

Import Re.


(** The three ways the loop body can go on a line. *)
Lemma etr_line_cases logs line w :
  (~ five_tags line /\ etr_line logs line w = (inr logs, w))
  \/ (five_tags line /\
      exists c u p h t,
        search course_pattern line = Some [c]
        /\ search time_pattern line = Some [t]
        /\ match Py.float t with
           | None => etr_line logs line w = (inl ValueError, w)
           | Some q =>
               exists b w',
                 mpu_check_anomaly w = (inr b, w')
                 /\ etr_line logs line w =
                    (inr (logs ++ [mkETR u (Py.replace "_" " " c)
                                     (Py.digits_value p) (Py.digits_value h)
                                     (etr_time_str q) b]), w')
           end).
Proof.
  destruct (search_tag "[course]" nonspace line solid_nonspace) as [Ic Sc].
  destruct (search_tag "[plyr]" nonspace line solid_nonspace) as [Iu Su].
  destruct (search_tag "[pts]" digit line solid_digit) as [Ip Sp].
  destruct (search_tag "[herr]" digit line solid_digit) as [Ih Sh].
  destruct (search_tag "[time]" digit_or_dot line solid_digit_or_dot)
    as [It St].
  unfold etr_line, course_pattern, plyr_pattern, pts_pattern, herr_pattern,
    time_pattern.
  destruct (search (tag_pattern "[course]" nonspace) line) as [cc|] eqn:Ec.
  2:{ left. split; [|reflexivity].
      intros (H & _). apply Ic in H. now destruct H. }
  destruct (Sc _ eq_refl) as (c & -> & _ & _).
  destruct (search (tag_pattern "[plyr]" nonspace) line) as [cu|] eqn:Eu.
  2:{ left. split; [|reflexivity].
      intros (_ & H & _). apply Iu in H. now destruct H. }
  destruct (Su _ eq_refl) as (u & -> & _ & _).
  destruct (search (tag_pattern "[pts]" digit) line) as [cp|] eqn:Ep.
  2:{ left. split; [|reflexivity].
      intros (_ & _ & H & _). apply Ip in H. now destruct H. }
  destruct (Sp _ eq_refl) as (p & -> & Hp & Fp).
  destruct (search (tag_pattern "[herr]" digit) line) as [ch|] eqn:Eh.
  2:{ left. split; [|reflexivity].
      intros (_ & _ & _ & H & _). apply Ih in H. now destruct H. }
  destruct (Sh _ eq_refl) as (h & -> & Hh & Fh).
  destruct (search (tag_pattern "[time]" digit_or_dot) line) as [ct|] eqn:Et.
  2:{ left. split; [|reflexivity].
      intros (_ & _ & _ & _ & H). apply It in H. now destruct H. }
  destruct (St _ eq_refl) as (t & -> & _ & _).
  right. split.
  { repeat split; [apply Ic | apply Iu | apply Ip | apply Ih | apply It];
      eauto. }
  exists c, u, p, h, t. split; [reflexivity|]. split; [reflexivity|].
  unfold bind, expect. simpl in Fp, Fh.
  rewrite (int_digits p Hp Fp), (int_digits h Hh Fh). unfold ret at 1 2.
  destruct (Py.float t) as [q|]; [|reflexivity].
  unfold ret at 1.
  destruct (check_world w) as (b & w' & E & _). exists b, w'.
  split; [exact E|]. now rewrite E.
Qed.

End RacerFacts.

(** ** Two-digit fields *)

Section TwoDigits.






End TwoDigits.

Section TimeShape.











End TimeShape.

Section RacerPass.

Import Re.






End RacerPass.

Section RacerParser.

Lemma exists_true w path f :
  fs w !! path = Some f -> os_path_exists path w = (inr true, w).
Proof.
  intros H. unfold os_path_exists. rewrite H.
  rewrite bool_decide_eq_true_2; [reflexivity | eauto].
Qed.

Lemma exists_false w path :
  fs w !! path = None -> os_path_exists path w = (inr false, w).
Proof.
  intros H. unfold os_path_exists. rewrite H.
  rewrite bool_decide_eq_false_2; [reflexivity|].
  intros [x Hx]. discriminate.
Qed.



End RacerParser.

(** ** Claims about the racer parser *)





(** ** The delivery sink *)

Section SinkFacts.

Lemma send_one_eq game c log w :
  send_one game c log w =
  match http w (http_calls w) with
  | Response s =>
      if s =? 200
      then (inr (mkCounters (S (success_count c))
                   (if is_anomaly log then S (anomaly_count c)
                    else anomaly_count c)
                   (duplicate_count c)), sent w)
      else if s =? 409
      then (inr (mkCounters (success_count c) (anomaly_count c)
                   (S (duplicate_count c))), sent w)
      else (inr c, sent w)
  | Raises ConnectionError => (inr c, sent w)
  | Raises _ => (inr c, printed (MsgSendFailed game) (sent w))
  end.
Proof.
  unfold send_one, try_except, bind, requests_post.
  destruct (http w (http_calls w)) as [s|e].
  - destruct (s =? 200); [reflexivity|]. destruct (s =? 409); reflexivity.
  - destruct e; reflexivity.
Qed.

Lemma accepted_200 s log :
  accepted (Response s) log = (s =? 200).
Proof.
  unfold accepted. destruct (s =? 200) eqn:E.
  - apply Z.eqb_eq in E. now subst.
  - apply Z.eqb_neq in E.
    destruct s as [|p|p]; try reflexivity.
    destruct (decide (p = 200%positive)) as [->|N]; [now destruct E|].
    repeat (destruct p as [p|p|]; try reflexivity); now destruct N.
Qed.

Lemma conflict_409 s log :
  conflict (Response s) log = (s =? 409).
Proof.
  unfold conflict. destruct (s =? 409) eqn:E.
  - apply Z.eqb_eq in E. now subst.
  - apply Z.eqb_neq in E.
    destruct s as [|p|p]; try reflexivity.
    destruct (decide (p = 409%positive)) as [->|N]; [now destruct E|].
    repeat (destruct p as [p|p|]; try reflexivity); now destruct N.
Qed.

(** The loop of [send_to_api]: one request per record, the counters grow by
    the tallies of the outcomes, and only failures are printed. *)
Lemma send_loop game logs : forall c w,
  exists c' w' failures,
    for_each (send_one game) logs c w = (inr c', w')
    /\ success_count c'
       = (success_count c + tally accepted (http w) (http_calls w) logs)%nat
    /\ anomaly_count c'
       = (anomaly_count c + tally flagged (http w) (http_calls w) logs)%nat
    /\ duplicate_count c'
       = (duplicate_count c + tally conflict (http w) (http_calls w) logs)%nat
    /\ http_calls w' = (http_calls w + length logs)%nat
    /\ http w' = http w /\ fs w' = fs w
    /\ mpu_detector w' = mpu_detector w /\ clock w' = clock w
    /\ stdout w' = stdout w ++ failures
    /\ Forall (eq (MsgSendFailed game)) failures.
Proof.
  induction logs as [|log logs IH]; intros c w.
  - exists c, w, []. simpl. rewrite app_nil_r.
    repeat split; try reflexivity; try lia. constructor.
  - simpl for_each. unfold bind. rewrite send_one_eq. simpl tally.
    replace (flagged (http w (http_calls w)) log)
      with (accepted (http w (http_calls w)) log && is_anomaly log)
      by reflexivity.
    destruct (http w (http_calls w)) as [s|e] eqn:Eo.
    + rewrite accepted_200, conflict_409.
      destruct (s =? 200) eqn:E2.
      * assert (E4 : (s =? 409) = false)
          by (apply Z.eqb_eq in E2; now subst).
        rewrite E4.
        destruct (IH (mkCounters (S (success_count c))
                        (if is_anomaly log then S (anomaly_count c)
                         else anomaly_count c) (duplicate_count c)) (sent w))
          as (c' & w' & fl & -> & H1 & H2 & H3 & H4 & H5 & H6 & H7 & H8
              & H9 & H10).
        exists c', w', fl. simpl in *.
        repeat split; try assumption; try lia.
        destruct (is_anomaly log); simpl; lia.
      * destruct (s =? 409) eqn:E4.
        -- destruct (IH (mkCounters (success_count c) (anomaly_count c)
                           (S (duplicate_count c))) (sent w))
             as (c' & w' & fl & -> & H1 & H2 & H3 & H4 & H5 & H6 & H7 & H8
                 & H9 & H10).
           exists c', w', fl. simpl in *.
           repeat split; try assumption; lia.
        -- destruct (IH c (sent w))
             as (c' & w' & fl & -> & H1 & H2 & H3 & H4 & H5 & H6 & H7 & H8
                 & H9 & H10).
           exists c', w', fl. simpl in *.
           repeat split; try assumption; lia.
    + assert (Ea : forall l, accepted (Raises e) l = false) by reflexivity.
      assert (Ec : forall l, conflict (Raises e) l = false) by reflexivity.
      rewrite Ea, Ec.
      destruct e;
        try (destruct (IH c (printed (MsgSendFailed game) (sent w)))
               as (c' & w' & fl & -> & H1 & H2 & H3 & H4 & H5 & H6 & H7 & H8
                   & H9 & H10);
             exists c', w', (MsgSendFailed game :: fl); simpl in *;
             repeat split; try assumption; try lia;
             [now rewrite H9, <- app_assoc | now constructor]).
      destruct (IH c (sent w))
        as (c' & w' & fl & -> & H1 & H2 & H3 & H4 & H5 & H6 & H7 & H8
            & H9 & H10).
      exists c', w', fl. simpl in *.
      repeat split; try assumption; lia.
Qed.

Lemma send_to_api_eq game logs w :
  exists c w' failures,
    send_to_api game logs w = (inr c, w')
    /\ success_count c = tally accepted (http w) (http_calls w) logs
    /\ anomaly_count c = tally flagged (http w) (http_calls w) logs
    /\ duplicate_count c = tally conflict (http w) (http_calls w) logs
    /\ http_calls w' = (http_calls w + length logs)%nat
    /\ http w' = http w /\ fs w' = fs w
    /\ mpu_detector w' = mpu_detector w /\ clock w' = clock w
    /\ stdout w' = stdout w ++ failures ++ summary game c
    /\ Forall (eq (MsgSendFailed game)) failures.
Proof.
  unfold send_to_api, bind at 1.
  destruct (send_loop game logs (mkCounters 0 0 0) w)
    as (c & w1 & fl & -> & H1 & H2 & H3 & H4 & H5 & H6 & H7 & H8 & H9 & H10).
  simpl in H1, H2, H3.
  destruct ((0 <? success_count c)%nat || (0 <? duplicate_count c)%nat)
    eqn:E; unfold bind, print, ret; simpl.
  - exists c, (printed (MsgSummary game (nonzero (success_count c))
                          (nonzero (duplicate_count c))
                          (nonzero (anomaly_count c))) w1), fl.
    unfold summary. rewrite E. simpl. rewrite H9, <- app_assoc.
    repeat split; try assumption; reflexivity.
  - exists c, w1, fl. unfold summary. rewrite E, app_nil_r.
    repeat split; try assumption; reflexivity.
Qed.

End SinkFacts.

(** ** Claims about the delivery sink *)

(** C6, as stated, fails: a response that is neither a success nor a
    conflict is a failure that is not logged. *)
Lemma sink_classifies_outcomes_counterexample : ~ sink_classifies_outcomes.
Proof.
  intros H.
  destruct (H "neverball"%string (mkCounters 0 0 0) Sample.alice
              Sample.world_500) as (_ & _ & _ & H4).
  assert (Ho : other_failure (Response 500))
    by (repeat split; discriminate).
  specialize (H4 Ho). rewrite send_one_eq in H4. simpl in H4.
  injection H4 as H4. discriminate.
Qed.

(** C6, amended.  For every record one request is made.  A 200 response
    increments the accepted count, and the anomaly tally when the record is
    flagged; a 409 response increments the duplicate count only; a
    connection failure changes no counter, prints nothing and raises
    nothing; any other exception is logged; a response with any other
    status changes no counter and is not logged.  Nothing is retried.  Over
    a batch the counters are the tallies of the outcomes, one request is
    made per record, and the summary line is printed exactly when the
    accepted or the duplicate count is not zero. *)
Theorem sink_counts_outcomes :
  (forall game c log w,
     let o := http w (http_calls w) in
     (o = Response 200 ->
        send_one game c log w =
        (inr (mkCounters (S (success_count c))
                (if is_anomaly log then S (anomaly_count c)
                 else anomaly_count c)
                (duplicate_count c)), sent w))
     /\ (o = Response 409 ->
           send_one game c log w =
           (inr (mkCounters (success_count c) (anomaly_count c)
                   (S (duplicate_count c))), sent w))
     /\ (o = Raises ConnectionError ->
           send_one game c log w = (inr c, sent w))
     /\ (forall e, e <> ConnectionError -> o = Raises e ->
           send_one game c log w =
           (inr c, printed (MsgSendFailed game) (sent w)))
     /\ (forall s, s <> 200 -> s <> 409 -> o = Response s ->
           send_one game c log w = (inr c, sent w)))
  /\ (forall game logs w,
        exists c w' failures,
          send_to_api game logs w = (inr c, w')
          /\ success_count c = tally accepted (http w) (http_calls w) logs
          /\ anomaly_count c = tally flagged (http w) (http_calls w) logs
          /\ duplicate_count c = tally conflict (http w) (http_calls w) logs
          /\ http_calls w' = (http_calls w + length logs)%nat
          /\ stdout w' = stdout w ++ failures ++ summary game c
          /\ Forall (eq (MsgSendFailed game)) failures
          /\ (summary game c <> [] <->
                (0 < success_count c)%nat \/ (0 < duplicate_count c)%nat)).
Proof.
  split.
  - intros game c log w o. subst o.
    rewrite send_one_eq. repeat split.
    + intros ->. reflexivity.
    + intros ->. reflexivity.
    + intros ->. reflexivity.
    + intros e Ne ->. destruct e; try reflexivity. now destruct Ne.
    + intros s N2 N4 ->.
      apply Z.eqb_neq in N2, N4. now rewrite N2, N4.
  - intros game logs w.
    destruct (send_to_api_eq game logs w)
      as (c & w' & fl & E & H1 & H2 & H3 & H4 & _ & _ & _ & _ & H9 & H10).
    exists c, w', fl. repeat split; try assumption.
    + unfold summary. intros H.
      destruct (0 <? success_count c)%nat eqn:E1;
        [apply Nat.ltb_lt in E1; auto|].
      destruct (0 <? duplicate_count c)%nat eqn:E2;
        [apply Nat.ltb_lt in E2; auto|].
      now destruct H.
    + unfold summary. intros [H|H]; apply Nat.ltb_lt in H; rewrite H;
        [|rewrite orb_true_r]; discriminate.
Qed.

Lemma sink_counts_outcomes_witness :
  send_one "neverball"%string (mkCounters 0 0 0) Sample.alice Sample.world0
  = (inr (mkCounters 1 1 0), sent Sample.world0)
  /\ send_one "neverball"%string (mkCounters 0 0 0) Sample.alice
       Sample.world_500
     = (inr (mkCounters 0 0 0), sent Sample.world_500).
Proof.
  destruct sink_counts_outcomes as [H _]. split.
  - destruct (H "neverball"%string (mkCounters 0 0 0) Sample.alice
                Sample.world0) as (H1 & _).
    apply H1. reflexivity.
  - destruct (H "neverball"%string (mkCounters 0 0 0) Sample.alice
                Sample.world_500) as (_ & _ & _ & _ & H5).
    apply (H5 500); [discriminate | discriminate | reflexivity].
Defined.

(** ** Claims about start-up *)

Section ReceiverFacts.

Import Keyboard.

(** With a device and while running, the loop feeds every decodable
    datagram to the detector. *)
Lemma receive_loop_updates incoming : forall self det received,
  keyboard self = Some received -> running self = true ->
  (_receive_loop incoming self det).1.2 = updated_by incoming det.
Proof.
  induction incoming as [|ev rest IH]; intros self det received Hk Hr.
  - reflexivity.
  - simpl. rewrite Hr. simpl.
    destruct ev as [data| |].
    + unfold _process_data.
      destruct (decode_frame data) as [f| |] eqn:Ed.
      * destruct (Detector.update (pitch f) (roll f) det) as [d o] eqn:Eu.
        rewrite Hk. simpl.
        specialize (IH (mkKeyboard (Some (received ++ emit (key_state f)))
                          (sock self) (running self)) d
                       (received ++ emit (key_state f)) eq_refl Hr).
        destruct (_receive_loop rest _ d) as [[s' d'] o'].
        simpl in *. exact IH.
      * specialize (IH self det received Hk Hr).
        destruct (_receive_loop rest self det) as [[s' d'] o'].
        simpl in *. exact IH.
      * specialize (IH self det received Hk Hr).
        destruct (_receive_loop rest self det) as [[s' d'] o'].
        simpl in *. exact IH.
    + specialize (IH self det received Hk Hr).
      destruct (_receive_loop rest self det) as [[s' d'] o'].
      simpl in *. exact IH.
    + specialize (IH self det received Hk Hr).
      destruct (_receive_loop rest self det) as [[s' d'] o'].
      simpl in *. exact IH.
Qed.

End ReceiverFacts.

(** C8, as stated, fails: when the device is refused [start] returns before
    it binds the socket, so no datagram reaches the detector. *)
Lemma receiver_survives_device_failure_counterexample :
  ~ receiver_survives_device_failure.
Proof.
  intros H. destruct (H [Datagram Sample.payload_999]) as [H1 _].
  vm_compute in H1. discriminate.
Qed.

(** C8, amended.  When the virtual input device cannot be opened, because
    the library is missing or the device is refused, this is printed once
    and [start] returns without binding a socket or starting the receiver:
    no datagram is decoded, the detector is never updated and no key is
    emitted.  Start-up goes on: nothing is raised.  With the device and the
    port, the receiver feeds every decodable datagram to the detector. *)
Theorem device_failure_stops_receiver :
  (forall EVDEV_AVAILABLE uinput_ok bind_ok incoming,
     EVDEV_AVAILABLE && uinput_ok = false ->
     let c := boot_controller EVDEV_AVAILABLE uinput_ok bind_ok in
     keyboard (vk c) = None /\ sock (vk c) = None
     /\ running (vk c) = false /\ receiver_started c = false
     /\ (console c = [MsgKeyboardDisabled]
         \/ console c = [MsgKeyboardFailed])
     /\ deliver incoming c = c
     /\ detector (deliver incoming c) = Detector.init)
  /\ (forall incoming,
        let c := boot_controller true true true in
        receiver_started c = true
        /\ detector (deliver incoming c) = updated_by incoming Detector.init).
Proof.
  split.
  - intros [] [] bind_ok incoming H; try discriminate;
      vm_compute; repeat split; auto.
  - intros incoming c. split; [reflexivity|].
    subst c. unfold boot_controller, deliver. simpl.
    pose proof (receive_loop_updates incoming
                  (mkKeyboard (Some []) (Some Bound) true)
                  Detector.init [] eq_refl eq_refl) as E.
    destruct (Keyboard._receive_loop incoming _ Detector.init)
      as [[s d] o].
    exact E.
Qed.

Lemma device_failure_stops_receiver_witness :
  let c := boot_controller true false true in
  receiver_started c = false
  /\ console c = [MsgKeyboardFailed]
  /\ detector (deliver [Datagram Sample.payload_999] c) = Detector.init
  /\ updated_by [Datagram Sample.payload_999] Detector.init <> Detector.init.
Proof.
  intros c. destruct device_failure_stops_receiver as [H _].
  destruct (H true false true [Datagram Sample.payload_999] eq_refl)
    as (_ & _ & _ & Hs & Hc & _ & Hd).
  split; [exact Hs|]. split.
  - destruct Hc as [Hc|Hc]; [vm_compute in Hc; discriminate | exact Hc].
  - split; [exact Hd|]. vm_compute. discriminate.
Defined.

(** ** The poller *)

Create HintDb steady.

Section Steady.

Lemma steady_ret {A} (a : A) : steady (ret a).
Proof. intros w. reflexivity. Qed.

Lemma steady_raise {A} e : steady (@raise A e).
Proof. intros w. reflexivity. Qed.

Lemma steady_bind {A B} (m : M A) (k : A -> M B) :
  steady m -> (forall a, steady (k a)) -> steady (bind m k).
Proof.
  intros Hm Hk w. unfold bind. specialize (Hm w).
  destruct (m w) as [[e|a] w1]; simpl in *; [exact Hm|].
  rewrite (Hk a w1). exact Hm.
Qed.

Lemma steady_try {A} (m : M A) h :
  steady m -> (forall e, steady (h e)) -> steady (try_except m h).
Proof.
  intros Hm Hh w. unfold try_except. specialize (Hm w).
  destruct (m w) as [[e|a] w1]; simpl in *; [|exact Hm].
  rewrite (Hh e w1). exact Hm.
Qed.

Lemma steady_for_each {A S} (body : S -> A -> M S) l :
  (forall acc a, steady (body acc a)) -> forall acc, steady (for_each body l acc).
Proof.
  intros Hb. induction l as [|a l IH]; intros acc; simpl.
  - apply steady_ret.
  - apply steady_bind; [apply Hb | exact IH].
Qed.

Lemma steady_print m : steady (print m).
Proof. intros w. reflexivity. Qed.

Lemma steady_expect {A} e (o : option A) : steady (expect e o).
Proof. destruct o; [apply steady_ret | apply steady_raise]. Qed.

Lemma steady_exists path : steady (os_path_exists path).
Proof. intros w. reflexivity. Qed.

Lemma steady_getmtime path : steady (os_path_getmtime path).
Proof. intros w. unfold os_path_getmtime. now destruct (fs w !! path). Qed.

Lemma steady_read path : steady (read_text path).
Proof.
  intros w. unfold read_text.
  destruct (fs w !! path) as [f|]; [|reflexivity]. now destruct (content f).
Qed.

Lemma steady_check : steady mpu_check_anomaly.
Proof. intros w. destruct (check_world w) as (b & w' & -> & H & _). exact H. Qed.

Lemma steady_post game log : steady (requests_post game log).
Proof.
  intros w. unfold requests_post. now destruct (http w (http_calls w)).
Qed.

Lemma returns_ret {A} (a : A) : returns (ret a).
Proof. intros w. eauto. Qed.

Lemma returns_bind {A B} (m : M A) (k : A -> M B) :
  returns m -> (forall a, returns (k a)) -> returns (bind m k).
Proof.
  intros Hm Hk w. unfold bind. destruct (Hm w) as [a Ha].
  destruct (m w) as [[e|a'] w1]; simpl in *; [discriminate|]. apply Hk.
Qed.

Lemma returns_try {A} (m : M A) h :
  (forall e, returns (h e)) -> returns (try_except m h).
Proof.
  intros Hh w. unfold try_except.
  destruct (m w) as [[e|a] w1]; [apply Hh | simpl; eauto].
Qed.

Lemma returns_print m : returns (print m).
Proof. intros w. simpl. eauto. Qed.

Lemma returns_exists path : returns (os_path_exists path).
Proof. intros w. simpl. eauto. Qed.

End Steady.

#[local] Hint Resolve steady_ret steady_raise steady_print steady_expect
  steady_exists steady_getmtime steady_read steady_check steady_post
  : steady.

Ltac steady_step :=
  match goal with
  | |- steady (bind _ _) => apply steady_bind; [|intros]
  | |- steady (try_except _ _) => apply steady_try; [|intros]
  | |- steady (for_each _ _ _) => apply steady_for_each; intros
  | |- steady (if ?b then _ else _) => destruct b
  | |- steady (match ?x with _ => _ end) => destruct x
  | |- steady _ => solve [auto with steady]
  end.

Section ParsersSteady.

Lemma steady_neverball path : steady (parse_neverball_log path).
Proof.
  unfold parse_neverball_log, neverball_line. repeat steady_step.
Qed.

Lemma steady_supertux path : steady (parse_supertux_log path).
Proof.
  unfold parse_supertux_log, supertux_username, supertux_match.
  repeat steady_step.
Qed.

Lemma steady_etr path : steady (parse_etr_log path).
Proof.
  unfold parse_etr_log, etr_line. repeat steady_step.
Qed.

Lemma steady_send game logs : steady (send_to_api game logs).
Proof.
  unfold send_to_api, send_one. repeat steady_step.
Qed.

Lemma steady_parse game path : steady (Watcher.parse game path).
Proof.
  unfold Watcher.parse.
  repeat steady_step;
    auto using steady_neverball, steady_supertux, steady_etr.
Qed.

Lemma returns_parser {A} path (body : M (list A)) name :
  returns (present <- os_path_exists path ;;
           if negb present then ret []
           else try_except body (fun _ => print (MsgParseError name) ;;; ret [])).
Proof.
  apply returns_bind; [apply returns_exists|].
  intros []; simpl; [|apply returns_ret].
  apply returns_try. intros e.
  apply returns_bind; [apply returns_print | intros; apply returns_ret].
Qed.

Lemma returns_parse game path : returns (Watcher.parse game path).
Proof.
  unfold Watcher.parse.
  destruct (bool_decide (game = "neverball"%string)).
  { apply returns_bind; [apply returns_parser | intros; apply returns_ret]. }
  destruct (bool_decide (game = "supertux"%string)).
  { apply returns_bind; [apply returns_parser | intros; apply returns_ret]. }
  destruct (bool_decide (game = "etr"%string)).
  { apply returns_bind; [apply returns_parser | intros; apply returns_ret]. }
  apply returns_ret.
Qed.

End ParsersSteady.

Section PollerFacts.

Import Watcher.

Lemma getmtime_ok w path f :
  fs w !! path = Some f -> os_path_getmtime path w = (inr (mtime f), w).
Proof. intros H. unfold os_path_getmtime. now rewrite H. Qed.

(** The three ways the body of the poll loop can go on one game. *)
Lemma watch_one_cases self game path w stored :
  last_modified self !! game = Some stored ->
  match fs w !! path with
  | Some f =>
      if PyFloat.gtb (mtime f) stored
      then
        exists logs w1,
          parse game path (printed (MsgLogChanged game) w) = (inr logs, w1)
          /\ watch_one self (game, path) w =
             (inr (mkWatcher (watching self)
                     (<[game := mtime f]> (last_modified self))),
              if bool_decide (logs = []) then w1
              else (send_to_api game logs w1).2)
      else watch_one self (game, path) w = (inr self, w)
  | None => watch_one self (game, path) w = (inr self, w)
  end.
Proof.
  intros Hs.
  assert (Hhead : forall f, fs w !! path = Some f ->
            watch_one self (game, path) w =
            (if PyFloat.gtb (mtime f) stored
             then
               print (MsgLogChanged game) ;;;
               logs <- parse game path ;;
               (if bool_decide (logs = []) then ret tt
                else send_to_api game logs ;;; ret tt) ;;;
               ret (mkWatcher (watching self)
                      (<[game := mtime f]> (last_modified self)))
             else ret self) w).
  { intros f Ef. unfold watch_one.
    unfold bind at 1. rewrite (exists_true w path f Ef).
    unfold bind at 1. rewrite (getmtime_ok w path f Ef).
    unfold bind at 1. rewrite Hs. reflexivity. }
  destruct (fs w !! path) as [f|] eqn:Ef.
  - rewrite (Hhead f eq_refl).
    destruct (PyFloat.gtb (mtime f) stored); [|reflexivity].
    destruct (returns_parse game path (printed (MsgLogChanged game) w))
      as [logs Hl].
    destruct (parse game path (printed (MsgLogChanged game) w))
      as [r w1] eqn:Ep.
    simpl in Hl. subst r. exists logs, w1. split; [reflexivity|].
    unfold bind at 1. simpl. unfold bind at 1. rewrite Ep.
    unfold bind at 1.
    destruct (bool_decide (logs = [])); [reflexivity|].
    unfold bind at 1.
    destruct (send_to_api_eq game logs w1) as (c & w2 & fl & -> & _).
    reflexivity.
  - unfold watch_one, bind at 1. now rewrite (exists_false w path Ef).
Qed.

(** Whatever the parse gives, the stored time becomes the polled one and
    the files stay as they are. *)
Lemma watch_one_store self game path w stored :
  last_modified self !! game = Some stored ->
  exists w',
    watch_one self (game, path) w =
    (inr (mkWatcher (watching self)
            (<[game := polled stored (fs w !! path)]> (last_modified self))),
     w')
    /\ fs w' = fs w.
Proof.
  intros Hs. pose proof (watch_one_cases self game path w stored Hs) as H.
  assert (Hid : mkWatcher (watching self)
                  (<[game := stored]> (last_modified self)) = self).
  { destruct self as [r lm]. simpl in *. now rewrite insert_id. }
  unfold polled. destruct (fs w !! path) as [f|].
  - destruct (PyFloat.gtb (mtime f) stored).
    + destruct H as (logs & w1 & Ep & ->).
      eexists. split; [reflexivity|].
      pose proof (steady_parse game path (printed (MsgLogChanged game) w))
        as S1. rewrite Ep in S1. simpl in S1.
      destruct (bool_decide (logs = [])); [exact S1|].
      rewrite (steady_send game logs w1). exact S1.
    + exists w. now rewrite H, Hid.
  - exists w. now rewrite H, Hid.
Qed.

Lemma watch_all paths : forall self w,
  (forall game path, (game, path) ∈ paths ->
                     is_Some (last_modified self !! game)) ->
  NoDup paths.*1 ->
  exists self' w',
    for_each watch_one paths self w = (inr self', w')
    /\ fs w' = fs w
    /\ watching self' = watching self
    /\ (forall game path stored,
          (game, path) ∈ paths ->
          last_modified self !! game = Some stored ->
          last_modified self' !! game
          = Some (polled stored (fs w !! path)))
    /\ (forall game, game ∉ paths.*1 ->
          last_modified self' !! game = last_modified self !! game).
Proof.
  induction paths as [|[g p] paths IH]; intros self w Hall Hnd.
  - exists self, w. simpl. repeat split; try reflexivity.
    intros game path stored H. inversion H.
  - apply NoDup_cons in Hnd as [Hg Hnd].
    destruct (Hall g p) as [stored Hs]; [left|].
    destruct (watch_one_store self g p w stored Hs) as (w1 & E1 & F1).
    cbn [for_each]. unfold bind at 1. rewrite E1.
    set (self1 := mkWatcher (watching self)
                    (<[g := polled stored (fs w !! p)]> (last_modified self))).
    destruct (IH self1 w1) as (self' & w' & E & F & W & Hin & Hout).
    { intros game path Hi. subst self1. simpl.
      destruct (decide (g = game)) as [->|N].
      - rewrite lookup_insert_eq. eauto.
      - rewrite lookup_insert_ne by exact N. apply (Hall game path).
        now right. }
    { exact Hnd. }
    exists self', w'. split; [exact E|]. split; [congruence|].
    split; [exact W|]. split.
    + intros game path st Hi Hst.
      apply elem_of_cons in Hi as [[= -> ->]|Hi].
      * rewrite (Hout g Hg). subst self1. simpl.
        rewrite lookup_insert_eq. congruence.
      * assert (N : g <> game).
        { intros ->. apply Hg. apply list_elem_of_fmap.
          exists (game, path); auto. }
        rewrite (Hin game path st Hi); [now rewrite F1|].
        subst self1. simpl. now rewrite lookup_insert_ne.
    + intros game Hn. apply not_elem_of_cons in Hn as [N Hn].
      rewrite (Hout game Hn). subst self1. simpl.
      now rewrite lookup_insert_ne.
Qed.

End PollerFacts.

(** ** Claims about the poller *)

(** C9, as stated, fails: the stored time is set before the file is parsed,
    so it moves even when the pass fails and delivers nothing. *)
Lemma mtime_updated_after_success_counterexample :
  ~ mtime_updated_after_success.
Proof.
  intros H.
  assert (Hin : ("etr", "~/.config/etr/highscore")%string ∈ LOG_PATHS)
    by (apply list_elem_of_In; simpl; auto).
  destruct (watch_one_store Sample.watcher "etr"%string
              "~/.config/etr/highscore"%string Sample.world_racer 0%Q)
    as (w' & E & _); [vm_compute; reflexivity|].
  assert (Ew : w' = (Watcher.watch_one Sample.watcher
                       ("etr", "~/.config/etr/highscore")%string
                       Sample.world_racer).2) by (now rewrite E).
  apply (H _ _ _ _ _ _ Hin E) with (name := "ETR"%string).
  - simpl. rewrite lookup_insert_eq. vm_compute. discriminate.
  - rewrite Ew. vm_compute. repeat constructor.
Qed.

(** C9, amended.  In a poll of one game: when the file is absent, or its
    modification time does not exceed the stored one, nothing happens; when
    it strictly exceeds it, the stored time is set to it whatever the parse
    then gives, the whole file is parsed, and the records, if any, go to the
    sink, one request each.  A cycle over the watched games raises nothing,
    leaves the files as they are and stores for every game the newer of the
    stored and the current time. *)
Theorem poll_stores_then_parses :
  (forall self game path w stored,
     last_modified self !! game = Some stored ->
     ((fs w !! path = None
       \/ exists f, fs w !! path = Some f /\ (mtime f <= stored)%Q) ->
      Watcher.watch_one self (game, path) w = (inr self, w))
     /\ (forall f,
           fs w !! path = Some f -> (stored < mtime f)%Q ->
           exists logs w1 w',
             Watcher.parse game path (printed (MsgLogChanged game) w)
             = (inr logs, w1)
             /\ Watcher.watch_one self (game, path) w =
                (inr (mkWatcher (watching self)
                        (<[game := mtime f]> (last_modified self))), w')
             /\ w' = (if bool_decide (logs = []) then w1
                      else (send_to_api game logs w1).2)
             /\ http_calls w' = (http_calls w1 + length logs)%nat))
  /\ (forall self w,
        (forall game path, (game, path) ∈ LOG_PATHS ->
                           is_Some (last_modified self !! game)) ->
        exists self' w',
          Watcher.watch_cycle self w = (inr self', w')
          /\ fs w' = fs w
          /\ forall game path stored,
               (game, path) ∈ LOG_PATHS ->
               last_modified self !! game = Some stored ->
               last_modified self' !! game
               = Some (polled stored (fs w !! path))).
Proof.
  split.
  - intros self game path w stored Hs.
    pose proof (watch_one_cases self game path w stored Hs) as H.
    split.
    + intros [Hn | (f & Hf & Hle)].
      * now rewrite Hn in H.
      * rewrite Hf in H.
        assert (E : PyFloat.gtb (mtime f) stored = false)
          by (now apply ltb_ge).
        now rewrite E in H.
    + intros f Hf Hlt. rewrite Hf in H.
      assert (E : PyFloat.gtb (mtime f) stored = true) by (now apply ltb_lt).
      rewrite E in H. destruct H as (logs & w1 & Ep & Ew).
      exists logs, w1. eexists. split; [exact Ep|]. split; [exact Ew|].
      split; [reflexivity|].
      destruct (bool_decide (logs = [])) eqn:El.
      * apply bool_decide_eq_true in El. subst. simpl. lia.
      * destruct (send_to_api_eq game logs w1)
          as (c & w2 & fl & -> & _ & _ & _ & H4 & _). exact H4.
  - intros self w Hall.
    destruct (watch_all LOG_PATHS self w Hall)
      as (self' & w' & E & F & _ & Hin & _).
    { apply (bool_decide_unpack _). vm_compute. exact I. }
    exists self', w'. auto.
Qed.

Lemma poll_stores_then_parses_witness :
  Watcher.watch_one Sample.watcher
    ("neverball", "~/.neverball/Scores/easy.txt")%string Sample.world_racer
  = (inr Sample.watcher, Sample.world_racer)
  /\ exists w',
       Watcher.watch_one Sample.watcher
         ("etr", "~/.config/etr/highscore")%string Sample.world_racer
       = (inr (mkWatcher true
                 (<["etr"%string := (5 # 1)%Q]>
                    (last_modified Sample.watcher))), w').
Proof.
  destruct poll_stores_then_parses as [H _]. split.
  - destruct (H Sample.watcher "neverball"%string
                "~/.neverball/Scores/easy.txt"%string Sample.world_racer 0%Q)
      as [H1 _]; [vm_compute; reflexivity|].
    apply H1. left. vm_compute. reflexivity.
  - destruct (H Sample.watcher "etr"%string
                "~/.config/etr/highscore"%string Sample.world_racer 0%Q)
      as [_ H2]; [vm_compute; reflexivity|].
    destruct (H2 Sample.racer_file) as (logs & w1 & w' & _ & E & _).
    + vm_compute. reflexivity.
    + vm_compute. reflexivity.
    + exists w'. exact E.
Defined.

(** ** The Neverball parser *)

Section NeverballPattern.

Import Re.

Lemma step_bol p g caps s :
  match_here (Bol :: p) true g caps s = match_here p true g caps s.
Proof. reflexivity. Qed.

Lemma step_open p b g caps s :
  match_here (Open :: p) b g caps s = match_here p b (Some []) caps s.
Proof. reflexivity. Qed.

Lemma step_close p b g caps s :
  match_here (Close :: p) b g caps s
  = match_here p b None (caps ++ [default [] g]) s.
Proof. reflexivity. Qed.

(** Before a pattern that cannot start inside the class, [k+] takes the
    whole run or fails. *)
Lemma plus_greedy k p bol grp caps s :
  rejects p k ->
  match_here (Plus k :: p) bol grp caps s =
  match run k s with
  | O => None
  | S _ => match_here p false (capture grp (take (run k s) s)) caps
             (drop (run k s) s)
  end.
Proof.
  intros Hr. cbn [match_here]. rewrite first_down_greedy; [reflexivity|].
  intros j Hj. destruct (run_inside k s j) as (c & r & -> & Hc); [lia|].
  now apply Hr.
Qed.

Lemma rejects_plus k k' p :
  (forall c, in_class k c = true -> in_class k' c = false) ->
  rejects (Plus k' :: p) k.
Proof.
  intros Hd c r b g caps Hc. cbn [match_here].
  now rewrite (run_head_out k' c r (Hd c Hc)).
Qed.

Lemma rejects_open k p : rejects p k -> rejects (Open :: p) k.
Proof. intros H c r b g caps Hc. rewrite step_open. now apply H. Qed.

Lemma rejects_close k p : rejects p k -> rejects (Close :: p) k.
Proof. intros H c r b g caps Hc. rewrite step_close. now apply H. Qed.

Lemma rejects_eol p : rejects (Eol :: p) nonspace.
Proof.
  intros c r b g caps Hc. cbn [match_here].
  rewrite bool_decide_eq_false_2 by discriminate.
  rewrite bool_decide_eq_false_2; [reflexivity|].
  intros [= -> ->]. vm_compute in Hc. discriminate.
Qed.

Lemma digit_not_space c : in_class digit c = true -> in_class space c = false.
Proof. apply solid_digit. Qed.

Lemma space_not_digit c : in_class space c = true -> in_class digit c = false.
Proof.
  intros H. destruct (in_class digit c) eqn:E; [|reflexivity].
  apply solid_digit in E. simpl in H. congruence.
Qed.

Lemma space_not_nonspace c :
  in_class space c = true -> in_class nonspace c = false.
Proof. simpl. now intros ->. Qed.

(** A non-empty run splits the text. *)
Lemma run_split k s n :
  run k s = S n ->
  take (run k s) s <> []
  /\ Forall (fun c => in_class k c = true) (take (run k s) s)
  /\ s = take (run k s) s ++ drop (run k s) s.
Proof.
  intros E. split; [|split].
  - destruct s as [|c s]; [discriminate|]. rewrite E. discriminate.
  - apply run_take.
  - now rewrite take_drop.
Qed.

(** The run of a word followed by nothing of its class is the word. *)
Lemma run_exact k w rest :
  Forall (fun c => in_class k c = true) w ->
  (rest = [] \/ exists c r, rest = c :: r /\ in_class k c = false) ->
  run k (w ++ rest) = length w.
Proof.
  intros Fw Hr. rewrite (run_app k w rest Fw).
  destruct Hr as [-> | (c & r & -> & Hc)]; simpl; [lia|].
  rewrite Hc. lia.
Qed.

(** What the Neverball pattern matches, and what it captures. *)
Lemma neverball_match_sound s caps rest :
  match_here neverball_pattern true None [] s = Some (caps, rest) ->
  exists t c u,
    caps = [t; c; u] /\ (rest = [] \/ rest = [Py.LF])
    /\ exists s', s = s' ++ rest /\ shaped s' t c u.
Proof.
  unfold neverball_pattern.
  rewrite step_bol, step_open.
  rewrite plus_greedy
    by (apply rejects_close, rejects_plus, digit_not_space).
  destruct (run digit s) as [|n1] eqn:E1; [discriminate|].
  rewrite <- E1. destruct (run_split _ _ _ E1) as (N1 & F1 & S1).
  set (t := take (run digit s) s) in *.
  set (s1 := drop (run digit s) s) in *.
  rewrite step_close.
  rewrite plus_greedy
    by (apply rejects_open, rejects_plus, space_not_digit).
  destruct (run space s1) as [|n2] eqn:E2; [discriminate|].
  rewrite <- E2. destruct (run_split _ _ _ E2) as (N2 & F2 & S2).
  set (ws1 := take (run space s1) s1) in *.
  set (s2 := drop (run space s1) s1) in *.
  rewrite step_open.
  rewrite plus_greedy
    by (apply rejects_close, rejects_plus, digit_not_space).
  destruct (run digit s2) as [|n3] eqn:E3; [discriminate|].
  rewrite <- E3. destruct (run_split _ _ _ E3) as (N3 & F3 & S3).
  set (c := take (run digit s2) s2) in *.
  set (s3 := drop (run digit s2) s2) in *.
  rewrite step_close.
  rewrite plus_greedy
    by (apply rejects_open, rejects_plus, space_not_nonspace).
  destruct (run space s3) as [|n4] eqn:E4; [discriminate|].
  rewrite <- E4. destruct (run_split _ _ _ E4) as (N4 & F4 & S4).
  set (ws2 := take (run space s3) s3) in *.
  set (s4 := drop (run space s3) s3) in *.
  rewrite step_open.
  rewrite plus_greedy by (apply rejects_close, rejects_eol).
  destruct (run nonspace s4) as [|n5] eqn:E5; [discriminate|].
  rewrite <- E5. destruct (run_split _ _ _ E5) as (N5 & F5 & S5).
  set (u := take (run nonspace s4) s4) in *.
  set (s5 := drop (run nonspace s4) s4) in *.
  rewrite step_close. cbn [match_here].
  destruct (bool_decide (s5 = []) || bool_decide (s5 = [Py.LF])) eqn:Ee;
    [|discriminate].
  simpl. intros [= <- <-].
  exists t, c, u. split; [reflexivity|].
  split.
  { apply orb_true_iff in Ee as [Ee|Ee]; apply bool_decide_eq_true in Ee;
      auto. }
  exists (t ++ ws1 ++ c ++ ws2 ++ u). split.
  { rewrite S1 at 1. rewrite S2 at 1. rewrite S3 at 1. rewrite S4 at 1.
    rewrite S5 at 1. now rewrite <- !app_assoc. }
  exists ws1, ws2. repeat split; try assumption.
  eapply Forall_impl; [exact F5|]. simpl. intros a Ha.
  now apply negb_true_iff in Ha.
Qed.

End NeverballPattern.

Section NeverballComplete.

Import Re.

Lemma plus_exact k p bol grp caps w rest :
  rejects p k ->
  w <> [] -> Forall (fun c => in_class k c = true) w ->
  (rest = [] \/ exists c r, rest = c :: r /\ in_class k c = false) ->
  match_here (Plus k :: p) bol grp caps (w ++ rest)
  = match_here p false (capture grp w) caps rest.
Proof.
  intros Hr Hw Fw Hrest. rewrite (plus_greedy k p bol grp caps _ Hr).
  rewrite (run_exact k w rest Fw Hrest).
  rewrite take_app_length, drop_app_length.
  destruct w; [congruence | reflexivity].
Qed.

Lemma head_out k (w rest : str) :
  w <> [] -> Forall (fun a => in_class k a = false) w ->
  w ++ rest = [] \/ exists c r, w ++ rest = c :: r /\ in_class k c = false.
Proof.
  intros Hw Fw. destruct w as [|a w]; [congruence|].
  right. exists a, (w ++ rest). split; [reflexivity|]. now inversion Fw.
Qed.

Lemma neverball_match_complete s t c u :
  shaped s t c u ->
  match_here neverball_pattern true None [] s = Some ([t; c; u], []).
Proof.
  intros (ws1 & ws2 & -> & N1 & F1 & N2 & F2 & N3 & F3 & N4 & F4 & N5 & F5).
  unfold neverball_pattern. rewrite step_bol, step_open.
  rewrite plus_exact; try assumption.
  2:{ apply rejects_close, rejects_plus, digit_not_space. }
  2:{ apply head_out; [exact N2|]. eapply Forall_impl; [exact F2|].
      intros a Ha. now apply space_not_digit. }
  rewrite step_close, plus_exact; try assumption.
  2:{ apply rejects_open, rejects_plus, space_not_digit. }
  2:{ apply head_out; [exact N3|]. eapply Forall_impl; [exact F3|].
      intros a Ha. now apply digit_not_space. }
  rewrite step_open, plus_exact; try assumption.
  2:{ apply rejects_close, rejects_plus, digit_not_space. }
  2:{ apply head_out; [exact N4|]. eapply Forall_impl; [exact F4|].
      intros a Ha. now apply space_not_digit. }
  rewrite step_close, plus_exact; try assumption.
  2:{ apply rejects_open, rejects_plus, space_not_nonspace. }
  2:{ rewrite <- (app_nil_r u). apply head_out; [exact N5|].
      eapply Forall_impl; [exact F5|]. intros a Ha. exact Ha. }
  rewrite <- (app_nil_r u) at 1.
  rewrite step_open, plus_exact.
  - reflexivity.
  - apply rejects_close, rejects_eol.
  - exact N5.
  - eapply Forall_impl; [exact F5|]. intros a Ha. simpl. now rewrite Ha.
  - now left.
Qed.

(** A stripped line does not end with white space. *)
Lemma lstrip_head_out p (s : str) c r :
  Py.lstrip_of p s = c :: r -> p c = false.
Proof.
  induction s as [|a s IH]; simpl; [discriminate|].
  destruct (p a) eqn:E; [exact IH|]. now intros [= <- <-].
Qed.

Lemma strip_last p (s y : str) c :
  Py.strip_of p s = y ++ [c] -> p c = false.
Proof.
  unfold Py.strip_of. intros H.
  apply (f_equal (@rev ascii)) in H.
  rewrite rev_involutive, rev_app_distr in H. simpl in H.
  now apply lstrip_head_out in H.
Qed.

(** On a stripped line the pattern matches exactly the shaped lines. *)
Lemma neverball_match_strip line caps :
  match_ neverball_pattern (Py.strip line) = Some caps <->
  exists t c u, caps = [t; c; u] /\ shaped (Py.strip line) t c u.
Proof.
  unfold match_. split.
  - destruct (match_here neverball_pattern true None [] (Py.strip line))
      as [[caps' rest]|] eqn:E; [|discriminate].
    simpl. intros [= <-].
    apply neverball_match_sound in E
      as (t & c & u & -> & Hr & s' & Es & Hs).
    exists t, c, u. split; [reflexivity|].
    destruct Hr as [-> | ->]; [now rewrite app_nil_r in Es; rewrite Es|].
    apply strip_last in Es. vm_compute in Es. discriminate.
  - intros (t & c & u & -> & Hs).
    now rewrite (neverball_match_complete _ _ _ _ Hs).
Qed.

End NeverballComplete.

Section NeverballTime.



End NeverballTime.

Section NeverballLine.

Lemma shaped_unique s t c u t' c' u' :
  shaped s t c u -> shaped s t' c' u' -> t = t' /\ c = c' /\ u = u'.
Proof.
  intros H H'. apply neverball_match_complete in H, H'.
  rewrite H in H'. now injection H' as -> -> ->.
Qed.

Lemma shaped_ints s t c u :
  shaped s t c u ->
  Py.int t = Some (Py.digits_value t) /\ Py.int c = Some (Py.digits_value c).
Proof.
  intros (ws1 & ws2 & _ & N1 & F1 & _ & _ & N3 & F3 & _).
  split; now apply int_digits.
Qed.

(** The two ways the loop body can go on a line: the accumulator is kept,
    or one record is appended and its key remembered. *)
Lemma neverball_line_cases logs seen line w :
  ((forall t c u,
      shaped (Py.strip line) t c u ->
      reserved u = true
      \/ (u, Py.digits_value t, Py.digits_value c) ∈ seen)
   /\ neverball_line (logs, seen) line w = (inr (logs, seen), w))
  \/ (exists t c u b w',
        shaped (Py.strip line) t c u
        /\ reserved u = false
        /\ ((u, Py.digits_value t, Py.digits_value c) ∉ seen)
        /\ mpu_check_anomaly w = (inr b, w')
        /\ neverball_line (logs, seen) line w =
           (inr (logs ++ [mkNeverball u 1 (Py.digits_value t)
                            (Py.digits_value c)
                            (neverball_time (Py.digits_value t)) b],
                 seen ∪ {[(u, Py.digits_value t, Py.digits_value c)]}),
            w')).
Proof.
  unfold neverball_line.
  destruct (Re.match_ neverball_pattern (Py.strip line)) as [caps|] eqn:Em.
  - apply neverball_match_strip in Em as (t & c & u & -> & Hs).
    destruct (shaped_ints _ _ _ _ Hs) as [It Ic].
    destruct (reserved u) eqn:Er.
    + left. split; [|reflexivity]. intros t' c' u' Hs'.
      destruct (shaped_unique _ _ _ _ _ _ _ Hs Hs') as (_ & _ & <-). auto.
    + unfold bind, expect. rewrite It, Ic. unfold ret. cbn beta iota.
      destruct (bool_decide
                  ((u, Py.digits_value t, Py.digits_value c) ∈ seen)) eqn:Ek.
      * apply bool_decide_eq_true in Ek.
        left. split; [|reflexivity]. intros t' c' u' Hs'.
        destruct (shaped_unique _ _ _ _ _ _ _ Hs Hs') as (<- & <- & <-).
        auto.
      * apply bool_decide_eq_false in Ek.
        right. destruct (check_world w) as (b & w' & E & _).
        exists t, c, u, b, w'. repeat split; try assumption.
        now rewrite E.
  - left. split; [|reflexivity]. intros t c u Hs.
    apply neverball_match_complete in Hs.
    unfold Re.match_ in Em. now rewrite Hs in Em.
Qed.

End NeverballLine.

Section NeverballPass.



End NeverballPass.

(** ** Claims about the Neverball parser *)



(** * Further properties *)

(** ** The detector over whole histories *)

Section DetectorInvariants.

Import Detector.

Lemma gtb_lt x y : PyFloat.gtb x y = true <-> (y < x)%Q.
Proof. unfold PyFloat.gtb. apply ltb_lt. Qed.

Lemma consistent_init : consistent [] init.
Proof.
  unfold consistent, init; simpl. repeat split; try reflexivity;
    try (intros [? ?]; discriminate); intros; lia.
Qed.

Lemma consistent_update seen self pitch roll :
  consistent seen self ->
  consistent (seen ++ [(pitch, roll)]) (update pitch roll self).1.
Proof.
  intros (He & Hi & Hp & Hr & Hc & Hs & Hbp & Hbr).
  unfold consistent. rewrite length_app.
  change (length [(pitch, roll)]) with 1%nat.
  destruct (baseline_pitch self) as [p|] eqn:Ep.
  - rewrite (update_armed _ _ _ _ Ep); simpl.
    assert (Hlen : (10 <= length seen)%nat) by (apply Hbp; eauto).
    simpl. rewrite Ep.
    repeat split; try assumption; try (intros; lia); try (intros; eauto).
    + rewrite Hs. symmetry. apply take_app_le. lia.
    + apply Hbr. lia.
  - assert (Hlen : (length seen < 10)%nat).
    { destruct (le_lt_dec 10 (length seen)) as [H|H]; [|exact H].
      apply Hbp in H. destruct H; discriminate. }
    assert (Hseen : take 10 seen = seen) by (apply take_ge; lia).
    rewrite (update_calibrating _ _ _ Ep). cbv zeta.
    rewrite Hc, Hs, Hseen, length_app.
    change (length [(pitch, roll)]) with 1%nat.
    destruct (10 <=? length seen + 1)%nat eqn:E.
    + apply Nat.leb_le in E. simpl.
      repeat split; try assumption; try (intros; lia); try (intros; eauto).
      symmetry. apply take_ge. rewrite length_app; simpl; lia.
    + apply Nat.leb_gt in E. simpl. rewrite Ep.
      assert (Hnr : baseline_roll self = None).
      { destruct (baseline_roll self) eqn:Er; [|reflexivity].
        assert (10 <= length seen)%nat by (apply Hbr; eauto). lia. }
      rewrite Hnr.
      repeat split; try assumption; try (intros; lia);
        try (intros [? ?]; discriminate).
      symmetry. apply take_ge. rewrite length_app; simpl; lia.
Qed.

Lemma consistent_check seen self clk :
  consistent seen self -> consistent seen (check_anomaly self clk).1.1.2.
Proof.
  intros H. destruct (check_frame self clk) as [E|E]; simpl in E; rewrite E.
  - exact H.
  - exact H.
Qed.

Lemma consistent_run calls : forall seen self clk,
  consistent seen self ->
  consistent (seen ++ samples_of calls) (run calls self clk).1.2.
Proof.
  induction calls as [|[pitch roll|] rest IH]; intros seen self clk H.
  - simpl. now rewrite app_nil_r.
  - rewrite run_update. simpl samples_of.
    replace (seen ++ (pitch, roll) :: samples_of rest)
      with ((seen ++ [(pitch, roll)]) ++ samples_of rest)
      by now rewrite <- app_assoc.
    apply IH. now apply consistent_update.
  - rewrite run_check. simpl. apply IH. now apply consistent_check.
Qed.

(** X1.  Whatever calls are made on a fresh detector, in whatever order:
    the samples it keeps are the first ten it was given and no more, the
    pitch baseline is present exactly when ten samples have come in, the
    roll baseline exactly when the pitch baseline is, and the settings of
    [__init__] stand. *)
Theorem detector_keeps_first_ten_samples
    (calls : list Detector.call) (clk : Clock) :
  let self := (run calls init clk).1.2 in
  calibration_samples self = take 10 (samples_of calls)
  /\ (is_Some (baseline_pitch self) <-> (10 <= length (samples_of calls))%nat)
  /\ (is_Some (baseline_roll self) <-> is_Some (baseline_pitch self))
  /\ enabled self = true /\ check_interval self = 2%Q
  /\ pitch_threshold self = 15%Q /\ roll_threshold self = 15%Q.
Proof.
  destruct (consistent_run calls [] init clk consistent_init)
    as (He & Hi & Hp & Hr & Hc & Hs & Hbp & Hbr).
  simpl in *. repeat split; try assumption; try tauto.
Qed.



End DetectorInvariants.

(** ** The receiver and the device *)

Section ReceiverEmission.

Import Keyboard.





(** X4.  When no direction button is held the stick alone decides, and it
    never leaves opposite keys pressed on the device: not Left with Right,
    not Up with Down; with the stick between the thresholds, bounds
    included, the four direction keys and Space are released. *)
Theorem stick_never_presses_opposite_keys
    (self : VirtualKeyboard) (data : str) (det : MPUAnomalyDetector)
    (f : ControllerFrame) (received : list uinput_event) :
  decode_frame data = Frame f -> keyboard self = Some received ->
  btn_up f = false -> btn_down f = false ->
  btn_left f = false -> btn_right f = false ->
  exists evs,
    keyboard (_process_data self data det).1.1.2 = Some evs
    /\ ~ (pressed KEY_LEFT evs = Some true /\ pressed KEY_RIGHT evs = Some true)
    /\ ~ (pressed KEY_UP evs = Some true /\ pressed KEY_DOWN evs = Some true)
    /\ (1000 <= x_val f <= 3000 ->
        pressed KEY_LEFT evs = Some false /\ pressed KEY_RIGHT evs = Some false)
    /\ (1000 <= y_val f <= 3000 ->
        pressed KEY_UP evs = Some false /\ pressed KEY_DOWN evs = Some false
        /\ pressed KEY_SPACE evs = Some false).
Proof.
  intros Hd Hk Hu Hdn Hl Hr.
  rewrite (process_frame self data det f received Hd Hk). simpl.
  eexists. split; [reflexivity|].
  destruct (pressed_after_emit received (key_state f))
    as (ER & EL & ED & EU & _ & ES).
  simpl in ER, EL, ED, EU, ES. rewrite ER, EL, ED, EU, ES.
  rewrite Hu, Hdn, Hl, Hr, !orb_false_r.
  unfold THRESHOLD_LOW, THRESHOLD_HIGH.
  repeat split.
  - intros [H1 H2]. injection H1 as H1. injection H2 as H2.
    apply Z.gtb_lt in H1. apply Z.ltb_lt in H2. lia.
  - intros [H1 H2]. injection H1 as H1. injection H2 as H2.
    apply Z.ltb_lt in H1. apply Z.gtb_lt in H2. lia.
  - f_equal. rewrite Z.gtb_ltb. apply Z.ltb_ge. lia.
  - f_equal. apply Z.ltb_ge. lia.
  - f_equal. apply Z.ltb_ge. lia.
  - f_equal. rewrite Z.gtb_ltb. apply Z.ltb_ge. lia.
  - f_equal. apply Z.ltb_ge. lia.
Qed.

Lemma stick_never_presses_opposite_keys_witness :
  exists evs,
    keyboard (_process_data Sample.device Sample.payload_1000
                Detector.init).1.1.2 = Some evs
    /\ pressed KEY_LEFT evs = Some false /\ pressed KEY_RIGHT evs = Some false.
Proof.
  destruct (stick_never_presses_opposite_keys Sample.device
              Sample.payload_1000 Detector.init
              (mkFrame 1000 2000 false false false false false
                 (0 # 10)%Q (0 # 10)%Q) [])
    as (evs & H1 & _ & _ & H2 & _);
    try (vm_compute; reflexivity).
  exists evs. split; [exact H1|]. apply H2. simpl. lia.
Defined.

(** X5.  The receiver thread exists exactly when the library was imported,
    the device was created and the port could be bound, and only then is
    the keyboard marked running.  A port that cannot be bound is reported
    and leaves the device created but idle: what arrives afterwards changes
    nothing. *)
Theorem receiver_needs_library_device_and_port
    (EVDEV_AVAILABLE uinput_ok bind_ok : bool)
    (incoming : list datagram_event) :
  let c := boot_controller EVDEV_AVAILABLE uinput_ok bind_ok in
  (receiver_started c = true
   <-> EVDEV_AVAILABLE = true /\ uinput_ok = true /\ bind_ok = true)
  /\ running (vk c) = receiver_started c
  /\ (sock (vk c) = Some Bound <-> receiver_started c = true)
  /\ (EVDEV_AVAILABLE && uinput_ok && negb bind_ok = true ->
      keyboard (vk c) = Some [] /\ sock (vk c) = Some Unbound
      /\ console c = [MsgKeyboardCreated; MsgUdpError])
  /\ (receiver_started c = false -> deliver incoming c = c).
Proof.
  unfold deliver.
  destruct EVDEV_AVAILABLE, uinput_ok, bind_ok; cbn;
    repeat split; try tauto; try discriminate;
    try (intros (? & ? & ?); discriminate).
Qed.

End ReceiverEmission.

(** ** The fields of a datagram *)

Section DatagramFields.

Import Keyboard.

Lemma split_length sep s :
  length (Py.split sep s) = S (occurrences sep s).
Proof.
  induction s as [|c s IH]; [reflexivity|].
  simpl. destruct (Ascii.eqb c sep); simpl.
  - now rewrite IH.
  - destruct (Py.split sep s) as [|f fs]; simpl in *; [discriminate | exact IH].
Qed.

(** X6.  A datagram is dropped for its number of fields exactly when it is
    well-formed UTF-8 and the number of its commas is not eight; the
    conversions of the fields are tried on no other datagram. *)
Theorem wrong_count_iff_not_eight_commas (data : str) :
  decode_frame data = WrongCount
  <-> Py.valid_utf8 data = true /\ occurrences "," data <> 8%nat.
Proof.
  unfold decode_frame, Py.decode_utf8.
  pose proof (split_length "," data) as Hl.
  destruct (Py.valid_utf8 data).
  - destruct (Py.split "," data)
      as [|p0 [|p1 [|p2 [|p3 [|p4 [|p5 [|p6 [|p7 [|p8 [|p9 l]]]]]]]]]];
      simpl in Hl;
      try (split; [intros _; split; [reflexivity | lia] | reflexivity]).
    split.
    + destruct (Py.int p0), (Py.int p1), (Py.float p7), (Py.float p8);
        discriminate.
    + intros [_ H]. exfalso. apply H. lia.
  - split; [discriminate | intros [H _]; discriminate].
Qed.

End DatagramFields.

(** ** The checks of a parse pass *)

Section PassChecks.

Import Detector.

Lemma check_world_eq w b w' :
  mpu_check_anomaly w = (inr b, w') ->
  exists out,
    check_anomaly (mpu_detector w) (clock w)
    = (b, mpu_detector w', clock w', out).
Proof.
  unfold mpu_check_anomaly.
  destruct (check_anomaly (mpu_detector w) (clock w)) as [[[b' d] k] o].
  intros H. injection H as -> <-. simpl. eauto.
Qed.

(** A loop whose body makes at most one check a turn, and appends the
    answer to the flags when it does, makes a run of checks and returns
    their answers. *)
Lemma for_each_checks {A St} (body : St -> A -> M St)
    (flags : St -> list bool) :
  (forall acc a w acc' w',
     body acc a w = (inr acc', w') ->
     (flags acc' = flags acc /\ mpu_detector w' = mpu_detector w
      /\ clock w' = clock w)
     \/ exists b out,
          check_anomaly (mpu_detector w) (clock w)
          = (b, mpu_detector w', clock w', out)
          /\ flags acc' = flags acc ++ [b]) ->
  forall l acc w acc' w',
    for_each body l acc w = (inr acc', w') ->
    exists k bs,
      flags acc' = flags acc ++ bs
      /\ run (replicate k CheckAnomaly) (mpu_detector w) (clock w)
         = (bs, mpu_detector w', clock w').
Proof.
  intros Hbody. induction l as [|a l IH]; intros acc w acc' w' H.
  - injection H as <- <-. exists O, []. now rewrite app_nil_r.
  - cbn [for_each] in H. unfold bind in H.
    destruct (body acc a w) as [[e|acc1] w1] eqn:Eb; [discriminate|].
    destruct (IH acc1 w1 acc' w' H) as (k & bs & Hf & Hr).
    destruct (Hbody acc a w acc1 w1 Eb)
      as [(F & Ed & Ec) | (b & out & Ec & F)].
    + exists k, bs. split; [congruence|]. now rewrite <- Ed, <- Ec.
    + exists (S k), (b :: bs). split.
      * rewrite Hf, F, <- app_assoc. reflexivity.
      * change (replicate (S k) CheckAnomaly)
          with (CheckAnomaly :: replicate k CheckAnomaly).
        rewrite run_check, Ec. simpl. now rewrite Hr.
Qed.

Lemma run_checks_calibrating k self clk :
  baseline_pitch self = None ->
  run (replicate k CheckAnomaly) self clk = (replicate k false, self, clk).
Proof.
  intros H. induction k as [|k IH]; [reflexivity|].
  change (replicate (S k) CheckAnomaly)
    with (CheckAnomaly :: replicate k CheckAnomaly).
  rewrite run_check, (check_calibrating _ _ H). simpl. now rewrite IH.
Qed.

Lemma trues_replicate k : trues (replicate k false) = O.
Proof. induction k; simpl; auto. Qed.

Lemma etr_line_checks acc a w acc' w' :
  etr_line acc a w = (inr acc', w') ->
  (etr_is_anomaly <$> acc' = etr_is_anomaly <$> acc
   /\ mpu_detector w' = mpu_detector w /\ clock w' = clock w)
  \/ exists b out,
       check_anomaly (mpu_detector w) (clock w)
       = (b, mpu_detector w', clock w', out)
       /\ etr_is_anomaly <$> acc' = (etr_is_anomaly <$> acc) ++ [b].
Proof.
  intros H.
  destruct (etr_line_cases acc a w)
    as [[_ E] | (_ & c & u & p & h & t & _ & _ & E)].
  - rewrite E in H. injection H as <- <-. left. auto.
  - destruct (Py.float t) as [q|].
    + destruct E as (b & w1 & Ec & E). rewrite E in H.
      injection H as <- <-. right.
      destruct (check_world_eq _ _ _ Ec) as [out Eo].
      exists b, out. split; [exact Eo|]. now rewrite fmap_app.
    + rewrite E in H. discriminate.
Qed.

Lemma neverball_line_checks
    (acc : list NeverballLog * gset (str * Z * Z)) a w acc' w' :
  neverball_line acc a w = (inr acc', w') ->
  (nb_is_anomaly <$> acc'.1 = nb_is_anomaly <$> acc.1
   /\ mpu_detector w' = mpu_detector w /\ clock w' = clock w)
  \/ exists b out,
       check_anomaly (mpu_detector w) (clock w)
       = (b, mpu_detector w', clock w', out)
       /\ nb_is_anomaly <$> acc'.1 = (nb_is_anomaly <$> acc.1) ++ [b].
Proof.
  destruct acc as [logs seen]. intros H.
  destruct (neverball_line_cases logs seen a w)
    as [[_ E] | (t & c & u & b & w1 & _ & _ & _ & Ec & E)].
  - rewrite E in H. injection H as <- <-. left. auto.
  - rewrite E in H. injection H as <- <-. right.
    destruct (check_world_eq _ _ _ Ec) as [out Eo].
    exists b, out. split; [exact Eo|]. simpl. now rewrite fmap_app.
Qed.

Lemma supertux_match_checks username acc a w acc' w' :
  supertux_match username acc a w = (inr acc', w') ->
  (st_is_anomaly <$> acc' = st_is_anomaly <$> acc
   /\ mpu_detector w' = mpu_detector w /\ clock w' = clock w)
  \/ exists b out,
       check_anomaly (mpu_detector w) (clock w)
       = (b, mpu_detector w', clock w', out)
       /\ st_is_anomaly <$> acc' = (st_is_anomaly <$> acc) ++ [b].
Proof.
  unfold supertux_match.
  destruct a as [|g1 [|g2 [|g3 [|g4 [|g5 l]]]]];
    try (intros H; injection H as <- <-; left; auto).
  unfold bind. destruct (mpu_check_anomaly w) as [[e|b] w1] eqn:Ec;
    [discriminate|].
  destruct (Py.int g2) as [c|]; [|discriminate]. simpl.
  destruct (Py.int g3) as [s|]; [|discriminate]. simpl.
  destruct (Py.float g4) as [t|]; [|discriminate]. simpl.
  intros H. injection H as <- <-. right.
  destruct (check_world_eq _ _ _ Ec) as [out Eo].
  exists b, out. split; [exact Eo|]. now rewrite fmap_app.
Qed.

End PassChecks.

(** ** The anomaly flags of a parse pass *)

Section PassFlags.

Import Detector.

(** A parser that returns records returns those of its guarded body. *)
Lemma parser_outcome {A} path (body : M (list A)) name w logs w' :
  (present <- os_path_exists path ;;
   if negb present then ret []
   else try_except body (fun _ => print (MsgParseError name) ;;; ret []))
    w = (inr logs, w') ->
  logs = [] \/ body w = (inr logs, w').
Proof.
  unfold bind at 1, os_path_exists.
  destruct (bool_decide (is_Some (fs w !! path))); simpl.
  - unfold try_except. destruct (body w) as [[e|l] w1].
    + unfold bind, print, ret. intros H. injection H as <- _. now left.
    + intros H. injection H as <- <-. now right.
  - unfold ret. intros H. injection H as <- _. now left.
Qed.

(** The tail of the three parsers: the report of what was found. *)
Lemma found_outcome {A} name (logs : list A) w l w' :
  ((if bool_decide (logs = []) then ret tt
    else print (MsgFound name (length logs))) ;;; ret logs) w = (inr l, w') ->
  l = logs /\ mpu_detector w' = mpu_detector w /\ clock w' = clock w.
Proof.
  unfold bind. destruct (bool_decide (logs = []));
    unfold ret, print; simpl; intros H; injection H as <- <-; auto.
Qed.

Lemma read_text_outcome path w text w' :
  read_text path w = (inr text, w') -> w' = w.
Proof.
  unfold read_text. destruct (fs w !! path) as [f|]; [|discriminate].
  destruct (content f); [|discriminate]. intros H. now injection H.
Qed.

Lemma etr_checks path w logs w' :
  parse_etr_log path w = (inr logs, w') ->
  logs = []
  \/ exists k,
       run (replicate k CheckAnomaly) (mpu_detector w) (clock w)
       = (etr_is_anomaly <$> logs, mpu_detector w', clock w').
Proof.
  intros H. unfold parse_etr_log in H.
  apply parser_outcome in H. destruct H as [H|H]; [now left|]. right.
  unfold bind at 1 in H.
  destruct (read_text path w) as [[e|text] w1] eqn:Er; [discriminate|].
  apply read_text_outcome in Er. subst w1.
  unfold bind at 1 in H.
  destruct (for_each etr_line (Py.readlines text) [] w)
    as [[e|acc] w2] eqn:Ef; [discriminate|].
  apply found_outcome in H. destruct H as (-> & Hd & Hc).
  destruct (for_each_checks etr_line (fmap etr_is_anomaly) etr_line_checks
              _ _ _ _ _ Ef) as (k & bs & Hf & Hr).
  exists k. simpl in Hf. now rewrite Hf, Hd, Hc.
Qed.

Lemma neverball_checks path w logs w' :
  parse_neverball_log path w = (inr logs, w') ->
  logs = []
  \/ exists k,
       run (replicate k CheckAnomaly) (mpu_detector w) (clock w)
       = (nb_is_anomaly <$> logs, mpu_detector w', clock w').
Proof.
  intros H. unfold parse_neverball_log in H.
  apply parser_outcome in H. destruct H as [H|H]; [now left|]. right.
  unfold bind at 1 in H.
  destruct (read_text path w) as [[e|text] w1] eqn:Er; [discriminate|].
  apply read_text_outcome in Er. subst w1.
  unfold bind at 1 in H.
  destruct (for_each neverball_line (Py.readlines text) ([], ∅) w)
    as [[e|acc] w2] eqn:Ef; [discriminate|].
  apply found_outcome in H. destruct H as (-> & Hd & Hc).
  destruct (for_each_checks neverball_line
              (fun acc => nb_is_anomaly <$> acc.1) neverball_line_checks
              _ _ _ _ _ Ef) as (k & bs & Hf & Hr).
  exists k. simpl in Hf. now rewrite Hf, Hd, Hc.
Qed.

(** The player name is read without a trace: nothing is raised, the world
    stays as it is, and the name is not empty. *)
Lemma supertux_username_reads w :
  exists name, supertux_username w = (inr name, w) /\ name <> [].
Proof.
  unfold supertux_username, bind, os_path_exists.
  destruct (bool_decide (is_Some (fs w !! SUPERTUX_USERNAME_FILE))); simpl.
  - unfold try_except, bind, read_text.
    destruct (fs w !! SUPERTUX_USERNAME_FILE) as [f|].
    + destruct (content f) as [text|].
      * unfold ret.
        destruct (bool_decide (Py.strip (Py.read text) = [])) eqn:E.
        -- eexists. split; [reflexivity | discriminate].
        -- eexists. split; [reflexivity|].
           now apply bool_decide_eq_false_1 in E.
      * eexists. split; [reflexivity | discriminate].
    + eexists. split; [reflexivity | discriminate].
  - eexists. split; [reflexivity | discriminate].
Qed.

Lemma supertux_checks path w logs w' :
  parse_supertux_log path w = (inr logs, w') ->
  logs = []
  \/ exists k,
       run (replicate k CheckAnomaly) (mpu_detector w) (clock w)
       = (st_is_anomaly <$> logs, mpu_detector w', clock w').
Proof.
  intros H. unfold parse_supertux_log in H.
  apply parser_outcome in H. destruct H as [H|H]; [now left|]. right.
  unfold bind at 1 in H.
  destruct (read_text path w) as [[e|text] w1] eqn:Er; [discriminate|].
  apply read_text_outcome in Er. subst w1.
  unfold bind at 1 in H.
  destruct (supertux_username_reads w) as (name & En & _). rewrite En in H.
  unfold bind at 1 in H.
  destruct (for_each (supertux_match name)
              (Re.finditer level_pattern (Py.read text)) [] w)
    as [[e|acc] w2] eqn:Ef; [discriminate|].
  apply found_outcome in H. destruct H as (-> & Hd & Hc).
  destruct (for_each_checks (supertux_match name) (fmap st_is_anomaly)
              (supertux_match_checks name) _ _ _ _ _ Ef)
    as (k & bs & Hf & Hr).
  exists k. simpl in Hf. now rewrite Hf, Hd, Hc.
Qed.

Lemma parse_checks game path w logs w' :
  Watcher.parse game path w = (inr logs, w') ->
  logs = []
  \/ exists k,
       run (replicate k CheckAnomaly) (mpu_detector w) (clock w)
       = (is_anomaly <$> logs, mpu_detector w', clock w').
Proof.
  unfold Watcher.parse.
  destruct (bool_decide (game = "neverball"%string)).
  { unfold bind. destruct (parse_neverball_log path w) as [[e|l] w1] eqn:E;
      [discriminate|].
    intros H. injection H as <- <-.
    destruct (neverball_checks _ _ _ _ E) as [->|[k Hk]]; [now left|].
    right. exists k. now rewrite <- list_fmap_compose. }
  destruct (bool_decide (game = "supertux"%string)).
  { unfold bind. destruct (parse_supertux_log path w) as [[e|l] w1] eqn:E;
      [discriminate|].
    intros H. injection H as <- <-.
    destruct (supertux_checks _ _ _ _ E) as [->|[k Hk]]; [now left|].
    right. exists k. now rewrite <- list_fmap_compose. }
  destruct (bool_decide (game = "etr"%string)).
  { unfold bind. destruct (parse_etr_log path w) as [[e|l] w1] eqn:E;
      [discriminate|].
    intros H. injection H as <- <-.
    destruct (etr_checks _ _ _ _ E) as [->|[k Hk]]; [now left|].
    right. exists k. now rewrite <- list_fmap_compose. }
  intros H. injection H as <- _. now left.
Qed.

(** X7.  Whichever of the three files is parsed: when every reading of the
    clock during the pass lies within one window of two seconds, at most
    one record of the pass is flagged as an anomaly, however many records
    the file holds. *)
Theorem pass_flags_at_most_one_record
    (game path : string) (w w' : World) (logs : list PlayRecord) (t0 : Q) :
  Watcher.parse game path w = (inr logs, w') ->
  check_interval (mpu_detector w) = 2%Q ->
  (forall n, (t0 <= time_source (clock w) n < t0 + 2)%Q) ->
  (trues (is_anomaly <$> logs) <= 1)%nat.
Proof.
  intros H Hi Hw.
  destruct (parse_checks _ _ _ _ _ H) as [->|[k Hk]]; [simpl; lia|].
  pose proof (run_window (replicate k CheckAnomaly) (mpu_detector w)
                (clock w) t0 Hi Hw) as Hle.
  now rewrite Hk in Hle.
Qed.

Lemma pass_flags_at_most_one_record_witness :
  exists logs w',
    Watcher.parse "neverball" "~/.neverball/Scores/easy.txt"
      Sample.world_tilted = (inr logs, w')
    /\ is_anomaly <$> logs = [true; false]
    /\ (trues (is_anomaly <$> logs) <= 1)%nat.
Proof.
  assert (E1 : is_anomaly <$>
                 match (Watcher.parse "neverball"
                          "~/.neverball/Scores/easy.txt"
                          Sample.world_tilted).1 with
                 | inr logs => logs
                 | inl _ => []
                 end = [true; false]) by (vm_compute; reflexivity).
  destruct (Watcher.parse "neverball" "~/.neverball/Scores/easy.txt"
              Sample.world_tilted) as [[e|logs] w'] eqn:E;
    [discriminate|].
  exists logs, w'. split; [reflexivity|]. split; [exact E1|].
  apply (pass_flags_at_most_one_record "neverball"
           "~/.neverball/Scores/easy.txt" Sample.world_tilted w' logs
           (100 # 1)%Q E); [reflexivity|].
  intros [|n]; split; vm_compute; congruence.
Defined.

(** X8.  While the detector has no baseline, which is so as long as fewer
    than ten frames have arrived from the controller, no record of any of
    the three parsers is flagged as an anomaly. *)
Theorem no_flag_without_baseline
    (game path : string) (w w' : World) (logs : list PlayRecord) :
  Watcher.parse game path w = (inr logs, w') ->
  baseline_pitch (mpu_detector w) = None ->
  forall log, log ∈ logs -> is_anomaly log = false.
Proof.
  intros H Hb log Hin.
  destruct (parse_checks _ _ _ _ _ H) as [->|[k Hk]]; [inversion Hin|].
  rewrite (run_checks_calibrating k _ _ Hb) in Hk. injection Hk as Hk _ _.
  apply (trues_none (is_anomaly <$> logs)).
  - rewrite <- Hk. apply trues_replicate.
  - apply list_elem_of_fmap. eauto.
Qed.

Lemma no_flag_without_baseline_witness :
  exists logs w',
    Watcher.parse "neverball" "~/.neverball/Scores/easy.txt"
      Sample.world_neverball = (inr logs, w')
    /\ length logs = 1%nat
    /\ forall log, log ∈ logs -> is_anomaly log = false.
Proof.
  assert (E1 : length
                 match (Watcher.parse "neverball"
                          "~/.neverball/Scores/easy.txt"
                          Sample.world_neverball).1 with
                 | inr logs => logs
                 | inl _ => []
                 end = 1%nat) by (vm_compute; reflexivity).
  destruct (Watcher.parse "neverball" "~/.neverball/Scores/easy.txt"
              Sample.world_neverball) as [[e|logs] w'] eqn:E;
    [discriminate|].
  exists logs, w'. split; [reflexivity|]. split; [exact E1|].
  apply (no_flag_without_baseline "neverball"
           "~/.neverball/Scores/easy.txt" Sample.world_neverball w' logs E).
  reflexivity.
Defined.

End PassFlags.

(** ** What the parsers leave alone *)

Create HintDb offline.

Section Offline.

Lemma offline_ret {A} (a : A) : offline (ret a).
Proof. intros w. split; reflexivity. Qed.

Lemma offline_raise {A} e : offline (@raise A e).
Proof. intros w. split; reflexivity. Qed.

Lemma offline_bind {A B} (m : M A) (k : A -> M B) :
  offline m -> (forall a, offline (k a)) -> offline (bind m k).
Proof.
  intros Hm Hk w. unfold bind. specialize (Hm w).
  destruct (m w) as [[e|a] w1]; simpl in *; [exact Hm|].
  destruct (Hk a w1) as [H1 H2]. destruct Hm as [H3 H4].
  split; congruence.
Qed.

Lemma offline_try {A} (m : M A) h :
  offline m -> (forall e, offline (h e)) -> offline (try_except m h).
Proof.
  intros Hm Hh w. unfold try_except. specialize (Hm w).
  destruct (m w) as [[e|a] w1]; simpl in *; [|exact Hm].
  destruct (Hh e w1) as [H1 H2]. destruct Hm as [H3 H4].
  split; congruence.
Qed.

Lemma offline_for_each {A St} (body : St -> A -> M St) l :
  (forall acc a, offline (body acc a)) ->
  forall acc, offline (for_each body l acc).
Proof.
  intros Hb. induction l as [|a l IH]; intros acc; simpl.
  - apply offline_ret.
  - apply offline_bind; [apply Hb | exact IH].
Qed.

Lemma offline_print m : offline (print m).
Proof. intros w. split; reflexivity. Qed.

Lemma offline_expect {A} e (o : option A) : offline (expect e o).
Proof. destruct o; [apply offline_ret | apply offline_raise]. Qed.

Lemma offline_exists path : offline (os_path_exists path).
Proof. intros w. split; reflexivity. Qed.

Lemma offline_read path : offline (read_text path).
Proof.
  intros w. unfold read_text.
  destruct (fs w !! path) as [f|]; [|split; reflexivity].
  destruct (content f); split; reflexivity.
Qed.

Lemma offline_check : offline mpu_check_anomaly.
Proof.
  intros w. destruct (check_world w) as (b & w' & -> & _ & H1 & H2).
  split; assumption.
Qed.

End Offline.

#[local] Hint Resolve offline_ret offline_raise offline_print offline_expect
  offline_exists offline_read offline_check : offline.

Ltac offline_step :=
  match goal with
  | |- offline (bind _ _) => apply offline_bind; [|intros]
  | |- offline (try_except _ _) => apply offline_try; [|intros]
  | |- offline (for_each _ _ _) => apply offline_for_each; intros
  | |- offline (if ?b then _ else _) => destruct b
  | |- offline (match ?x with _ => _ end) => destruct x
  | |- offline _ => solve [auto with offline]
  end.

Section ParsersContained.

Lemma offline_neverball path : offline (parse_neverball_log path).
Proof.
  unfold parse_neverball_log, neverball_line. repeat offline_step.
Qed.

Lemma offline_supertux path : offline (parse_supertux_log path).
Proof.
  unfold parse_supertux_log, supertux_username, supertux_match.
  repeat offline_step.
Qed.

Lemma offline_etr path : offline (parse_etr_log path).
Proof.
  unfold parse_etr_log, etr_line. repeat offline_step.
Qed.

Lemma offline_parse game path : offline (Watcher.parse game path).
Proof.
  unfold Watcher.parse.
  repeat offline_step;
    auto using offline_neverball, offline_supertux, offline_etr.
Qed.

(** X9.  Whatever the file holds, and whether it can be read or not, a
    parser raises nothing: a conversion that fails on one line is caught
    with the rest.  It writes no file and sends no request. *)
Theorem parsers_raise_write_and_send_nothing
    (game path : string) (w : World) :
  exists logs w',
    Watcher.parse game path w = (inr logs, w')
    /\ fs w' = fs w
    /\ http_calls w' = http_calls w /\ http w' = http w.
Proof.
  destruct (returns_parse game path w) as [logs Hl].
  pose proof (steady_parse game path w) as Hs.
  destruct (offline_parse game path w) as [H1 H2].
  destruct (Watcher.parse game path w) as [r w'].
  simpl in *. subst r. exists logs, w'. auto.
Qed.

Lemma parse_missing game path w :
  fs w !! path = None -> Watcher.parse game path w = (inr [], w).
Proof.
  intros H. unfold Watcher.parse, parse_neverball_log, parse_supertux_log,
    parse_etr_log.
  repeat (destruct (bool_decide _); [
    unfold bind at 1; unfold bind at 1;
    rewrite (exists_false w path H); reflexivity |]).
  reflexivity.
Qed.

Lemma read_text_fails w path m :
  fs w !! path = Some (mkFile m None) -> read_text path w = (inl OSError, w).
Proof. intros H. unfold read_text. now rewrite H. Qed.

Lemma parse_unreadable path m w :
  fs w !! path = Some (mkFile m None) ->
  Watcher.parse "neverball" path w
  = (inr [], printed (MsgParseError "Neverball") w)
  /\ Watcher.parse "supertux" path w
     = (inr [], printed (MsgParseError "SuperTux") w)
  /\ Watcher.parse "etr" path w
     = (inr [], printed (MsgParseError "ETR") w).
Proof.
  intros H. unfold Watcher.parse, parse_neverball_log, parse_supertux_log,
    parse_etr_log. simpl.
  repeat split;
    unfold bind at 1; unfold bind at 1;
    rewrite (exists_true w path _ H); simpl;
    unfold try_except; unfold bind at 1;
    rewrite (read_text_fails w path m H); reflexivity.
Qed.

(** X10.  A score file that does not exist gives no record and no output:
    the world is as it was.  A score file that exists but cannot be read
    gives no record either, and one line saying that the parse failed. *)
Theorem absent_or_unreadable_file_gives_no_record
    (path : string) (w : World) :
  (fs w !! path = None ->
   forall game, Watcher.parse game path w = (inr [], w))
  /\ (forall m, fs w !! path = Some (mkFile m None) ->
      Watcher.parse "neverball" path w
      = (inr [], printed (MsgParseError "Neverball") w)
      /\ Watcher.parse "supertux" path w
         = (inr [], printed (MsgParseError "SuperTux") w)
      /\ Watcher.parse "etr" path w
         = (inr [], printed (MsgParseError "ETR") w)).
Proof.
  split.
  - intros H game. now apply parse_missing.
  - intros m H. now apply (parse_unreadable path m).
Qed.

Lemma absent_or_unreadable_file_gives_no_record_witness :
  Watcher.parse "etr" "~/.config/etr/highscore" Sample.world0
  = (inr [], Sample.world0)
  /\ Watcher.parse "etr" "~/.config/etr/highscore" Sample.world_locked
     = (inr [], printed (MsgParseError "ETR") Sample.world_locked).
Proof.
  split.
  - destruct (absent_or_unreadable_file_gives_no_record
                "~/.config/etr/highscore" Sample.world0) as [H _].
    apply H. vm_compute. reflexivity.
  - destruct (absent_or_unreadable_file_gives_no_record
                "~/.config/etr/highscore" Sample.world_locked) as [_ H].
    destruct (H (5 # 1)%Q) as (_ & _ & H3); [vm_compute; reflexivity|].
    exact H3.
Defined.

End ParsersContained.

(** ** The player name of SuperTux *)

Section PlayerName.

Lemma lstrip_idem p (s : str) :
  Py.lstrip_of p (Py.lstrip_of p s) = Py.lstrip_of p s.
Proof.
  induction s as [|a s IH]; simpl; [reflexivity|].
  destruct (p a) eqn:E; [exact IH|]. simpl. now rewrite E.
Qed.

Lemma lstrip_fixed p (s : str) :
  (forall c r, s = c :: r -> p c = false) -> Py.lstrip_of p s = s.
Proof.
  destruct s as [|a s]; simpl; [reflexivity|].
  intros H. now rewrite (H a s eq_refl).
Qed.

Lemma lstrip_split p (s : str) : exists pre, s = pre ++ Py.lstrip_of p s.
Proof.
  induction s as [|a s [pre IH]]; simpl.
  - now exists [].
  - destruct (p a).
    + exists (a :: pre). simpl. now rewrite <- IH.
    + now exists [].
Qed.

(** Stripping what was stripped changes nothing. *)
Lemma strip_idem p (s : str) :
  Py.strip_of p (Py.strip_of p s) = Py.strip_of p s.
Proof.
  unfold Py.strip_of.
  set (a := Py.lstrip_of p s). set (z := Py.lstrip_of p (rev a)).
  assert (C1 : Py.lstrip_of p (rev z) = rev z).
  { apply lstrip_fixed. intros c r E.
    destruct (lstrip_split p (rev a)) as [pre Hpre]. fold z in Hpre.
    assert (Ha : a = rev z ++ rev pre)
      by (now rewrite <- rev_app_distr, <- Hpre, rev_involutive).
    rewrite E in Ha. simpl in Ha.
    exact (lstrip_head_out p s c (r ++ rev pre) Ha). }
  rewrite C1, rev_involutive. unfold z. now rewrite lstrip_idem.
Qed.

Lemma universal_newlines_plain (s : str) :
  Py.CR ∉ s -> Py.universal_newlines s = s.
Proof.
  induction s as [|a s IH]; simpl; intros H; [reflexivity|].
  apply not_elem_of_cons in H as [H1 H2].
  destruct (Ascii.eqb a Py.CR) eqn:E.
  - apply Ascii.eqb_eq in E. congruence.
  - now rewrite IH.
Qed.

Lemma player_name_stripped line :
  player_name line <> [] /\ Py.strip (player_name line) = player_name line.
Proof.
  unfold player_name.
  destruct (bool_decide (Py.strip line = [])) eqn:E.
  - split; [discriminate | reflexivity].
  - apply bool_decide_eq_false_1 in E. split; [exact E|].
    apply strip_idem.
Qed.

Lemma supertux_username_saved w :
  supertux_username w = (inr (saved_name (fs w)), w).
Proof.
  unfold supertux_username, saved_name, bind, os_path_exists.
  destruct (fs w !! SUPERTUX_USERNAME_FILE) as [f|] eqn:Ef; simpl.
  - unfold try_except, bind, read_text. rewrite Ef.
    now destruct (content f).
  - reflexivity.
Qed.

Lemma saved_name_nonempty files : saved_name files <> [].
Proof.
  unfold saved_name.
  destruct (files !! SUPERTUX_USERNAME_FILE) as [f|]; [|discriminate].
  destruct (content f) as [text|]; [|discriminate]. simpl.
  destruct (bool_decide (Py.strip (Py.read text) = [])) eqn:E;
    [discriminate|].
  now apply bool_decide_eq_false_1 in E.
Qed.

Lemma supertux_match_names name acc a w acc' w' :
  supertux_match name acc a w = (inr acc', w') ->
  Forall (fun r => st_username r = name) acc ->
  Forall (fun r => st_username r = name) acc'.
Proof.
  unfold supertux_match.
  destruct a as [|g1 [|g2 [|g3 [|g4 [|g5 l]]]]];
    try (intros H; injection H as <- <-; auto).
  unfold bind. destruct (mpu_check_anomaly w) as [[e|b] w1];
    [discriminate|].
  destruct (Py.int g2) as [c|]; [|discriminate]. simpl.
  destruct (Py.int g3) as [s|]; [|discriminate]. simpl.
  destruct (Py.float g4) as [t|]; [|discriminate]. simpl.
  intros H. injection H as <- <-. intros F.
  apply Forall_app. split; [exact F|]. now constructor.
Qed.

Lemma supertux_pass_names name matches : forall acc w acc' w',
  for_each (supertux_match name) matches acc w = (inr acc', w') ->
  Forall (fun r => st_username r = name) acc ->
  Forall (fun r => st_username r = name) acc'.
Proof.
  induction matches as [|a l IH]; intros acc w acc' w' H F.
  - injection H as <- <-. exact F.
  - cbn [for_each] in H. unfold bind in H.
    destruct (supertux_match name acc a w) as [[e|acc1] w1] eqn:E;
      [discriminate|].
    apply (IH acc1 w1 acc' w' H).
    exact (supertux_match_names name acc a w acc1 w1 E F).
Qed.

Lemma supertux_names path w logs w' :
  parse_supertux_log path w = (inr logs, w') ->
  Forall (fun r => st_username r = saved_name (fs w)) logs.
Proof.
  intros H. unfold parse_supertux_log in H.
  apply parser_outcome in H. destruct H as [->|H]; [constructor|].
  unfold bind at 1 in H.
  destruct (read_text path w) as [[e|text] w1] eqn:Er; [discriminate|].
  apply read_text_outcome in Er. subst w1.
  unfold bind at 1 in H. rewrite supertux_username_saved in H.
  unfold bind at 1 in H.
  destruct (for_each (supertux_match (saved_name (fs w)))
              (Re.finditer level_pattern (Py.read text)) [] w)
    as [[e|acc] w2] eqn:Ef; [discriminate|].
  apply found_outcome in H. destruct H as (-> & _ & _).
  apply (supertux_pass_names _ _ _ _ _ _ Ef). constructor.
Qed.

(** X11.  Every record of one pass over the SuperTux save file carries the
    same player name, and it is never empty: the content of the name file
    without the white space around it, or "Player" when that file is
    absent, cannot be read, or holds white space only. *)
Theorem supertux_records_carry_the_saved_name
    (path : string) (w w' : World) (logs : list SuperTuxLog) :
  parse_supertux_log path w = (inr logs, w') ->
  saved_name (fs w) <> []
  /\ (forall r, r ∈ logs -> st_username r = saved_name (fs w))
  /\ (fs w !! SUPERTUX_USERNAME_FILE = None ->
      saved_name (fs w) = lit "Player")
  /\ (forall m, fs w !! SUPERTUX_USERNAME_FILE = Some (mkFile m None) ->
      saved_name (fs w) = lit "Player")
  /\ (forall m text,
        fs w !! SUPERTUX_USERNAME_FILE = Some (mkFile m (Some text)) ->
        saved_name (fs w)
        = if bool_decide (Py.strip (Py.read text) = []) then lit "Player"
          else Py.strip (Py.read text)).
Proof.
  intros H. split; [apply saved_name_nonempty|]. split.
  - intros r Hr. pose proof (supertux_names path w logs w' H) as F.
    rewrite Forall_forall in F. now apply F.
  - unfold saved_name. repeat split.
    + now intros ->.
    + now intros m ->.
    + now intros m text ->.
Qed.

Lemma supertux_records_carry_the_saved_name_witness :
  exists logs w',
    parse_supertux_log "~/.local/share/supertux2/profile1/world1.stsg"
      Sample.world_supertux = (inr logs, w')
    /\ st_username <$> logs = [lit "tux"; lit "tux"].
Proof.
  assert (E1 : length
                 match (parse_supertux_log
                          "~/.local/share/supertux2/profile1/world1.stsg"
                          Sample.world_supertux).1 with
                 | inr logs => logs
                 | inl _ => []
                 end = 2%nat) by (vm_compute; reflexivity).
  destruct (parse_supertux_log
              "~/.local/share/supertux2/profile1/world1.stsg"
              Sample.world_supertux) as [[e|logs] w'] eqn:E;
    [discriminate|].
  exists logs, w'. split; [reflexivity|].
  destruct (supertux_records_carry_the_saved_name _ _ _ _ E)
    as (_ & Hn & _).
  destruct logs as [|r1 [|r2 [|r3 l]]]; try discriminate.
  simpl. rewrite (Hn r1), (Hn r2) by (repeat constructor).
  vm_compute. reflexivity.
Defined.

End PlayerName.

(** ** The launcher *)

Section Launcher.

Lemma launch_unsaved o r choice u w :
  choice <> 2 \/ o = OpenFails -> (launch_game o r choice u w).2 = w.
Proof.
  unfold launch_game, games. intros H.
  destruct (choice =? 1) eqn:E1; [apply Z.eqb_eq in E1; subst; reflexivity|].
  destruct (choice =? 2) eqn:E2.
  - apply Z.eqb_eq in E2. destruct H as [H| ->]; [congruence|].
    subst. reflexivity.
  - destruct (choice =? 3); reflexivity.
Qed.

Lemma launch_other_files o r choice u w path :
  path <> SUPERTUX_USERNAME_FILE ->
  fs (launch_game o r choice u w).2 !! path = fs w !! path.
Proof.
  intros Hp. unfold launch_game, games.
  destruct (choice =? 1) eqn:E1; [apply Z.eqb_eq in E1; subst; reflexivity|].
  destruct (choice =? 2); [|destruct (choice =? 3); reflexivity].
  destruct o; simpl; try reflexivity;
    now rewrite lookup_insert_ne.
Qed.

Lemma launch_returns o r choice u w :
  exists out, (launch_game o r choice u w).1 = inr out.
Proof.
  unfold launch_game, games.
  destruct (choice =? 1) eqn:E1;
    [apply Z.eqb_eq in E1; subst; destruct r; simpl; eauto|].
  destruct (choice =? 2); [destruct o, r; simpl; eauto|].
  destruct (choice =? 3); [destruct r; simpl; eauto|].
  simpl. eauto.
Qed.

(** X12.  The name the menu hands to the launcher is never empty and has no
    white space around it.  Launching SuperTux writes it to the name file,
    and when the write goes through and the name holds no carriage return,
    the records parsed from then on carry exactly that name; when the write
    breaks off, they carry "Player".  Launching another game, or a name
    file that cannot be opened, leaves the world as it was.  The launcher
    raises nothing and touches no other file. *)
Theorem launch_saves_the_name_for_supertux
    (o : write_outcome) (r : run_outcome) (choice : Z) (line : str)
    (w : World) :
  let u := player_name line in
  let w1 := (launch_game o r choice u w).2 in
  u <> [] /\ Py.strip u = u
  /\ (exists out, (launch_game o r choice u w).1 = inr out)
  /\ (choice <> 2 \/ o = OpenFails -> w1 = w)
  /\ (forall path, path <> SUPERTUX_USERNAME_FILE ->
                   fs w1 !! path = fs w !! path)
  /\ (forall t, choice = 2 -> o = Truncated t ->
      saved_name (fs w1) = lit "Player")
  /\ (forall t path logs w2,
        choice = 2 -> o = Written t -> Py.CR ∉ u ->
        parse_supertux_log path w1 = (inr logs, w2) ->
        forall rec, rec ∈ logs -> st_username rec = u).
Proof.
  intros u w1. subst u w1.
  destruct (player_name_stripped line) as [Hne Hs].
  split; [exact Hne|]. split; [exact Hs|].
  split; [apply launch_returns|].
  split; [apply launch_unsaved|].
  split; [intros path; apply launch_other_files|].
  split.
  - intros t -> ->. unfold saved_name. simpl.
    now rewrite lookup_insert_eq.
  - intros t path logs w2 -> -> Hcr Hp rec Hin.
    pose proof (supertux_names path _ logs w2 Hp) as F.
    rewrite Forall_forall in F. rewrite (F rec Hin).
    unfold saved_name. simpl. rewrite lookup_insert_eq. simpl.
    unfold Py.read. rewrite (universal_newlines_plain _ Hcr).
    rewrite Hs. now rewrite bool_decide_eq_false_2.
Qed.

Lemma launch_saves_the_name_for_supertux_witness :
  let w1 := (launch_game (Written (9 # 1)%Q) GameEnds 2 (lit "tux")
               Sample.world_supertux_unnamed).2 in
  (launch_game OpenFails GameMissing 2 (lit "tux")
     Sample.world_supertux_unnamed).2 = Sample.world_supertux_unnamed
  /\ exists logs w2,
       parse_supertux_log "~/.local/share/supertux2/profile1/world1.stsg" w1
       = (inr logs, w2)
       /\ st_username <$> logs = [lit "tux"; lit "tux"].
Proof.
  intros w1.
  destruct (launch_saves_the_name_for_supertux (Written (9 # 1)%Q) GameEnds 2
              (lit "  tux ") Sample.world_supertux_unnamed)
    as (_ & _ & _ & _ & _ & _ & Hw).
  destruct (launch_saves_the_name_for_supertux OpenFails GameMissing 2
              (lit "  tux ") Sample.world_supertux_unnamed)
    as (_ & _ & _ & Hu & _).
  split; [apply Hu; now right|].
  assert (E1 : length
                 match (parse_supertux_log
                          "~/.local/share/supertux2/profile1/world1.stsg"
                          w1).1 with
                 | inr logs => logs
                 | inl _ => []
                 end = 2%nat) by (vm_compute; reflexivity).
  destruct (parse_supertux_log
              "~/.local/share/supertux2/profile1/world1.stsg" w1)
    as [[e|logs] w2] eqn:E; [discriminate|].
  exists logs, w2. split; [reflexivity|].
  assert (Hcr : Py.CR ∉ player_name (lit "  tux ")).
  { apply (bool_decide_unpack _). vm_compute. exact I. }
  specialize (Hw (9 # 1)%Q _ logs w2 eq_refl eq_refl Hcr E).
  destruct logs as [|r1 [|r2 [|r3 l]]]; try discriminate.
  simpl. rewrite (Hw r1), (Hw r2) by (repeat constructor).
  vm_compute. reflexivity.
Defined.

End Launcher.

(** ** The counters of the sink *)

Section SinkBounds.

Lemma accepted_not_conflict o log :
  accepted o log = true -> conflict o log = false.
Proof.
  destruct o as [s|e]; [|discriminate].
  rewrite accepted_200, conflict_409. intros H.
  apply Z.eqb_eq in H. now subst.
Qed.

Lemma tally_bounds outcome logs : forall n,
  (tally flagged outcome n logs <= tally accepted outcome n logs)%nat
  /\ (tally accepted outcome n logs + tally conflict outcome n logs
      <= length logs)%nat.
Proof.
  induction logs as [|log logs IH]; intros n; simpl; [lia|].
  destruct (IH (S n)) as [H1 H2].
  replace (flagged (outcome n) log)
    with (accepted (outcome n) log && is_anomaly log) by reflexivity.
  destruct (accepted (outcome n) log) eqn:Ea.
  - rewrite (accepted_not_conflict _ _ Ea).
    destruct (is_anomaly log); simpl; lia.
  - simpl. destruct (conflict (outcome n) log); lia.
Qed.

(** X13.  Over any batch and whatever the collector answers, [send_to_api]
    raises nothing, never counts more anomalies than accepted records, and
    never counts more accepted and duplicate records together than it was
    given; it leaves the detector and the files alone.  An empty batch
    sends nothing and prints nothing. *)
Theorem sink_counters_stay_within_the_batch
    (game : string) (logs : list PlayRecord) (w : World) :
  (exists c w',
     send_to_api game logs w = (inr c, w')
     /\ (anomaly_count c <= success_count c)%nat
     /\ (success_count c + duplicate_count c <= length logs)%nat
     /\ mpu_detector w' = mpu_detector w /\ clock w' = clock w
     /\ fs w' = fs w)
  /\ send_to_api game [] w = (inr (mkCounters 0 0 0), w).
Proof.
  split; [|reflexivity].
  destruct (send_to_api_eq game logs w)
    as (c & w' & fl & E & H1 & H2 & H3 & _ & _ & H6 & H7 & H8 & _).
  exists c, w'. split; [exact E|].
  destruct (tally_bounds (http w) logs (http_calls w)) as [B1 B2].
  rewrite H1, H2, H3. auto.
Qed.

End SinkBounds.

(** ** The poller from start-up on *)

Section PollerStart.

Import Watcher.

Lemma init_one_eq lm game path w :
  init_one lm (game, path) w = (inr (<[game := stamp (fs w !! path)]> lm), w).
Proof.
  unfold init_one, bind, os_path_exists, os_path_getmtime, stamp.
  destruct (fs w !! path) as [f|] eqn:E; simpl.
  - now rewrite E.
  - reflexivity.
Qed.

Lemma init_eq w :
  init w =
  (inr (mkWatcher false
          (<["etr"%string := stamp (fs w !! "~/.config/etr/highscore"%string)]>
             (<["supertux"%string :=
                  stamp (fs w !! "~/.local/share/supertux2/profile1/world1.stsg"
                                   %string)]>
                (<["neverball"%string :=
                     stamp (fs w !! "~/.neverball/Scores/easy.txt"%string)]>
                   ∅)))),
   w).
Proof.
  unfold init, LOG_PATHS. cbn [for_each]. unfold bind.
  rewrite !init_one_eq. reflexivity.
Qed.

(** A cycle over files none of which is newer than its stored time does
    nothing. *)
Lemma cycle_quiet paths : forall self w,
  (forall game path,
     (game, path) ∈ paths ->
     exists stored,
       last_modified self !! game = Some stored
       /\ (PyFloat.gtb (stamp (fs w !! path)) stored = false
           \/ fs w !! path = None)) ->
  for_each watch_one paths self w = (inr self, w).
Proof.
  induction paths as [|[g p] paths IH]; intros self w H; [reflexivity|].
  cbn [for_each]. unfold bind at 1.
  destruct (H g p) as (stored & Hs & Hq); [left|].
  pose proof (watch_one_cases self g p w stored Hs) as Hc.
  assert (E : watch_one self (g, p) w = (inr self, w)).
  { unfold stamp in Hq. destruct (fs w !! p) as [f|]; [|exact Hc].
    destruct Hq as [Hq|Hq]; [|discriminate]. now rewrite Hq in Hc. }
  rewrite E. apply IH. intros game path Hin. apply H. now right.
Qed.

Lemma gtb_irrefl x : PyFloat.gtb x x = false.
Proof. apply ltb_ge. apply Qle_refl. Qed.

Lemma polled_not_older stored file :
  PyFloat.gtb (stamp file) (polled stored file) = false \/ file = None.
Proof.
  destruct file as [f|]; [left|now right]. unfold stamp, polled.
  destruct (PyFloat.gtb (mtime f) stored) eqn:E; [apply gtb_irrefl|exact E].
Qed.

(** X14.  At start-up the watcher raises nothing and stores for each of the
    three games the modification time of its file, or zero when the file is
    absent.  A poll cycle that follows on the same files does nothing at
    all: what the files hold at start-up is never sent by the poller. *)
Theorem watcher_starts_from_the_files_as_they_are (w : World) :
  exists self,
    init w = (inr self, w)
    /\ watching self = false
    /\ last_modified self !! "neverball"%string
       = Some (stamp (fs w !! "~/.neverball/Scores/easy.txt"%string))
    /\ last_modified self !! "supertux"%string
       = Some (stamp (fs w !! "~/.local/share/supertux2/profile1/world1.stsg"
                               %string))
    /\ last_modified self !! "etr"%string
       = Some (stamp (fs w !! "~/.config/etr/highscore"%string))
    /\ watch_cycle self w = (inr self, w).
Proof.
  eexists. split; [apply init_eq|]. split; [reflexivity|].
  split; [reflexivity|]. split; [reflexivity|]. split; [reflexivity|].
  apply cycle_quiet. intros game path Hin.
  unfold LOG_PATHS in Hin.
  repeat (apply elem_of_cons in Hin as [[= -> ->]|Hin]);
    [| | |inversion Hin];
    (eexists; split; [reflexivity | left; apply gtb_irrefl]).
Qed.

(** X15.  After a cycle of the poller, a second cycle over files that were
    not touched in between does nothing: no file is parsed, nothing is
    printed, no request is sent and the stored times stay. *)
Theorem unchanged_files_are_not_parsed_again
    (self self' : LogWatcher) (w w' : World) :
  (forall game path, (game, path) ∈ LOG_PATHS ->
                     is_Some (last_modified self !! game)) ->
  watch_cycle self w = (inr self', w') ->
  watch_cycle self' w' = (inr self', w').
Proof.
  intros Hall E.
  destruct (watch_all LOG_PATHS self w Hall)
    as (self1 & w1 & E1 & F & _ & Hin & _).
  { apply (bool_decide_unpack _). vm_compute. exact I. }
  unfold watch_cycle in E. rewrite E1 in E. injection E as <- <-.
  apply cycle_quiet. intros game path Hi.
  destruct (Hall game path Hi) as [stored Hs].
  exists (polled stored (fs w !! path)). split; [now apply (Hin game path)|].
  rewrite F. apply polled_not_older.
Qed.

Lemma unchanged_files_are_not_parsed_again_witness :
  exists self' w',
    watch_cycle Sample.watcher Sample.world_neverball = (inr self', w')
    /\ http_calls w' = 1%nat
    /\ watch_cycle self' w' = (inr self', w').
Proof.
  assert (E1 : http_calls
                 (watch_cycle Sample.watcher Sample.world_neverball).2 = 1%nat)
    by (vm_compute; reflexivity).
  assert (E2 : exists self',
                 (watch_cycle Sample.watcher Sample.world_neverball).1
                 = inr self')
    by (vm_compute; eauto).
  destruct E2 as [self' E2].
  destruct (watch_cycle Sample.watcher Sample.world_neverball) as [r w'] eqn:E.
  simpl in E1, E2. subst r.
  exists self', w'. split; [reflexivity|]. split; [exact E1|].
  apply (unchanged_files_are_not_parsed_again Sample.watcher self'
           Sample.world_neverball w'); [|exact E].
  intros game path Hin. unfold LOG_PATHS in Hin.
  repeat (apply elem_of_cons in Hin as [[= -> ->]|Hin]);
    [| | |inversion Hin]; vm_compute; eauto.
Defined.

End PollerStart.

(** ** The chat connections of the collector *)

Section ChatManager.

Import Manager.

Context {A : Type}.

Lemma last_n_app (n : nat) (a b : list A) :
  last_n n (last_n n a ++ b) = last_n n (a ++ b).
Proof.
  unfold last_n. rewrite !length_app, length_drop.
  destruct (le_lt_dec (length a) n) as [H|H].
  - assert (E : (length a - n = 0)%nat) by lia.
    rewrite E, drop_0. f_equal. lia.
  - rewrite <- (drop_app_le a b (length a - n)) by lia.
    rewrite drop_drop. f_equal. lia.
Qed.

Lemma last_n_short (n : nat) (l : list A) :
  (length l <= n)%nat -> last_n n l = l.
Proof.
  intros H. unfold last_n. replace (length l - n)%nat with O by lia.
  apply drop_0.
Qed.

Lemma last_n_length (n : nat) (l : list A) : (length (last_n n l) <= n)%nat.
Proof. unfold last_n. rewrite length_drop. lia. Qed.

Lemma broadcast_history send_ok (m : A) self :
  (length (message_history self) <= 50)%nat ->
  message_history (broadcast send_ok m self).1.1
  = last_n 50 (message_history self ++ [m]).
Proof.
  intros H. unfold broadcast. cbn [active_connections].
  destruct (send_all send_ok (active_connections self)) as [sent e].
  cbn [fst message_history]. unfold last_n. rewrite length_app.
  change (length [m]) with 1%nat.
  destruct (50 <? length (message_history self) + 1)%nat eqn:E.
  - apply Nat.ltb_lt in E. f_equal. lia.
  - apply Nat.ltb_ge in E.
    assert (E0 : (length (message_history self) + 1 - 50 = 0)%nat) by lia.
    now rewrite E0, drop_0.
Qed.

Lemma step_history (self : ConnectionManager A) (c : call A) :
  (length (message_history self) <= 50)%nat ->
  message_history (step self c)
  = last_n 50 (message_history self ++ messages_of [c]).
Proof.
  intros H. destruct c as [accepted ws|ws|send_ok m]; simpl.
  - rewrite app_nil_r, last_n_short by exact H.
    unfold connect. now destruct accepted.
  - rewrite app_nil_r, last_n_short by exact H.
    unfold disconnect. now destruct (remove ws (active_connections self)).
  - now apply broadcast_history.
Qed.

Lemma messages_of_app (a b : list (call A)) :
  messages_of (a ++ b) = messages_of a ++ messages_of b.
Proof.
  induction a as [|[| |] a IH]; simpl; [reflexivity|exact IH|exact IH|].
  now rewrite IH.
Qed.

Lemma run_history (calls : list (call A)) : forall self,
  (length (message_history self) <= 50)%nat ->
  message_history (run calls self)
  = last_n 50 (message_history self ++ messages_of calls).
Proof.
  induction calls as [|c calls IH]; intros self H.
  - simpl. now rewrite app_nil_r, last_n_short.
  - change (run (c :: calls) self) with (run calls (step self c)).
    rewrite IH by (rewrite step_history by exact H; apply last_n_length).
    rewrite step_history by exact H.
    rewrite last_n_app, <- app_assoc.
    change (c :: calls) with ([c] ++ calls).
    now rewrite messages_of_app.
Qed.

(** X16.  Whatever connects, disconnects and broadcasts the chat server
    goes through, and whether or not the sends succeed, the history it
    keeps is exactly the last fifty messages broadcast, oldest first: never
    more than fifty, and no message is lost before fifty newer ones have
    come. *)
Theorem chat_history_is_the_last_fifty_messages
    (calls : list (call A)) :
  let self := run calls init in
  message_history self = last_n 50 (messages_of calls)
  /\ (length (message_history self) <= 50)%nat
  /\ length (message_history self) = Nat.min 50 (length (messages_of calls)).
Proof.
  intros self. subst self.
  rewrite (run_history calls init) by (simpl; lia).
  change (message_history init ++ messages_of calls)
    with (messages_of calls).
  split; [reflexivity|]. split; [apply last_n_length|].
  unfold last_n. rewrite length_drop. lia.
Qed.

Lemma remove_spec ws (l : list nat) :
  match remove ws l with
  | Some l' => l ≡ₚ ws :: l'
  | None => ws ∉ l
  end.
Proof.
  induction l as [|y l IH]; simpl.
  - apply not_elem_of_nil.
  - destruct (y =? ws)%nat eqn:E.
    + apply Nat.eqb_eq in E. now subst.
    + apply Nat.eqb_neq in E.
      destruct (remove ws l) as [l'|]; simpl.
      * rewrite IH. apply Permutation_swap.
      * apply not_elem_of_cons. split; [congruence | exact IH].
Qed.

(** X17.  [disconnect] takes exactly one entry of the socket out of the
    list of connections and nothing else, and raises when the socket is not
    in the list, leaving the manager as it was; it never touches the
    history.  A socket that connects and disconnects leaves the number of
    connections as it found it. *)
Theorem disconnect_removes_one_connection
    (websocket : nat) (self : ConnectionManager A) :
  match disconnect websocket self with
  | inr self' =>
      active_connections self ≡ₚ websocket :: active_connections self'
      /\ message_history self' = message_history self
      /\ S (get_connection_count self') = get_connection_count self
  | inl e => e = NotInList /\ websocket ∉ active_connections self
  end
  /\ match connect true websocket self with
     | inr self1 =>
         match disconnect websocket self1 with
         | inr self2 =>
             get_connection_count self2 = get_connection_count self
             /\ active_connections self2 ≡ₚ active_connections self
         | inl _ => False
         end
     | inl _ => False
     end.
Proof.
  split.
  - unfold disconnect, get_connection_count.
    pose proof (remove_spec websocket (active_connections self)) as H.
    destruct (remove websocket (active_connections self)) as [l|]; simpl.
    + split; [exact H|]. split; [reflexivity|]. now rewrite H.
    + auto.
  - unfold connect, disconnect, get_connection_count. simpl.
    pose proof (remove_spec websocket (active_connections self ++ [websocket]))
      as H.
    destruct (remove websocket (active_connections self ++ [websocket]))
      as [l|]; simpl.
    + assert (P : active_connections self ≡ₚ l).
      { apply (Permutation_cons_inv (a := websocket)).
        rewrite <- H. apply Permutation_cons_append. }
      split; [now rewrite P | now symmetry].
    + apply H. apply elem_of_app. right. now left.
Qed.

End ChatManager.

(** ** Replay file names *)

Section ReplayNames.

Lemma split_app (sep : ascii) (a b : str) :
  Py.split sep (a ++ sep :: b) = Py.split sep a ++ Py.split sep b.
Proof.
  induction a as [|c a IH]; simpl.
  - now rewrite Ascii.eqb_refl.
  - destruct (Ascii.eqb c sep); [now rewrite IH|].
    rewrite IH. pose proof (split_length sep a) as Hl.
    now destruct (Py.split sep a).
Qed.

Lemma split_plain (sep : ascii) (s : str) :
  sep ∉ s -> Py.split sep s = [s].
Proof.
  induction s as [|c s IH]; simpl; intros H; [reflexivity|].
  apply not_elem_of_cons in H as [H1 H2].
  destruct (Ascii.eqb c sep) eqn:E.
  - apply Ascii.eqb_eq in E. congruence.
  - now rewrite IH.
Qed.

Lemma occurs_char (c : ascii) (s : str) :
  occurs [c] s = false -> c ∉ s.
Proof.
  induction s as [|a s IH]; simpl; intros H.
  - apply not_elem_of_nil.
  - apply orb_false_iff in H as [H1 H2].
    rewrite andb_true_r in H1. apply Ascii.eqb_neq in H1.
    apply not_elem_of_cons. split; [exact H1 | now apply IH].
Qed.

Lemma occurs_app (pat pre post : str) :
  occurs pat (pre ++ pat ++ post) = true.
Proof.
  induction pre as [|a pre IH]; simpl.
  - assert (P : Py.is_prefix pat (pat ++ post) = true).
    { induction pat as [|c pat IHp]; simpl; [reflexivity|].
      now rewrite Ascii.eqb_refl. }
    destruct (pat ++ post); simpl in *; now rewrite P.
  - rewrite IH. apply orb_true_r.
Qed.

(** X18.  A replay name that passes the guard holds no slash and no two
    dots in a row, so the path that is opened has the name as its last
    component, directly under the replay directory; a name with a slash or
    with two dots in a row anywhere is refused with status 400. *)
Theorem accepted_replay_stays_in_its_directory
    (userhome filename : str) :
  (replay_guard filename = None ->
   ("/"%char ∉ filename)
   /\ filename <> lit ".."
   /\ Py.split "/" (replay_path userhome filename)
      = Py.split "/" (userhome ++ lit "/.neverball/Replays") ++ [filename])
  /\ (forall pre post,
        filename = pre ++ lit ".." ++ post
        \/ filename = pre ++ lit "/" ++ post ->
        replay_guard filename = Some 400).
Proof.
  unfold replay_guard. split.
  - destruct (occurs (lit "..") filename) eqn:E1; [discriminate|].
    destruct (occurs (lit "/") filename) eqn:E2; [discriminate|].
    intros _. apply occurs_char in E2. split; [exact E2|]. split.
    + intros ->. vm_compute in E1. discriminate.
    + unfold replay_path.
      change (lit "/.neverball/Replays/")
        with (lit "/.neverball/Replays" ++ ["/"%char]).
      rewrite <- app_assoc, app_assoc. simpl.
      rewrite split_app. f_equal. now apply split_plain.
  - intros pre post [-> | ->]; rewrite occurs_app;
      [reflexivity | now rewrite orb_true_r].
Qed.

Lemma accepted_replay_stays_in_its_directory_witness :
  Py.split "/" (replay_path (lit "/home/pi") (lit "run_01.nbr"))
  = [[]; lit "home"; lit "pi"; lit ".neverball"; lit "Replays";
     lit "run_01.nbr"]
  /\ replay_guard (lit "../../etc/passwd") = Some 400.
Proof.
  destruct (accepted_replay_stays_in_its_directory (lit "/home/pi")
              (lit "run_01.nbr")) as [H _].
  destruct (accepted_replay_stays_in_its_directory (lit "/home/pi")
              (lit "../../etc/passwd")) as [_ H'].
  split.
  - destruct (H eq_refl) as (_ & _ & ->). reflexivity.
  - apply (H' [] (lit "/../etc/passwd")). now left.
Defined.

End ReplayNames.

(** ** The menu and the manual parse *)

Section Menu.

Import Watcher.

(** X19.  The menu starts the launcher only with the choices 1, 2 and 3, so
    the refusal of an unknown choice inside the launcher is never reached
    from the menu: the launcher always announces the game, with the name it
    was given, before anything else. *)
Theorem menu_launches_known_games_only (line : str) (choice : Z) :
  menu_action_of line = Launch choice ->
  (choice = 1 \/ choice = 2 \/ choice = 3)
  /\ forall o r u w,
       exists path name rest,
         games choice = Some (path, name)
         /\ (launch_game o r choice u w).1
            = inr (MsgLaunching name u :: rest)
         /\ MsgBadChoice ∉ rest.
Proof.
  unfold menu_action_of.
  destruct (bool_decide (Py.strip line = [])); [discriminate|].
  destruct (Py.int (Py.strip line)) as [n|]; [|discriminate].
  destruct (n =? 0); [discriminate|].
  destruct (bool_decide (n ∈ [1; 2; 3])) eqn:E.
  - intros H. injection H as <-. apply bool_decide_eq_true_1 in E.
    assert (Hc : n = 1 \/ n = 2 \/ n = 3).
    { repeat (apply elem_of_cons in E as [E|E]; [auto|]). inversion E. }
    split; [exact Hc|]. intros o r u w.
    destruct Hc as [-> | [-> | ->]]; unfold launch_game; simpl;
      destruct r; try destruct o; simpl;
      (eexists _, _, _; split; [reflexivity|]; split; [reflexivity|]);
      intros Hin; apply list_elem_of_singleton in Hin; discriminate.
  - destruct (n =? 4); [discriminate|]. destruct (n =? 5); discriminate.
Qed.

Lemma menu_launches_known_games_only_witness :
  menu_action_of (lit " 2 ") = Launch 2
  /\ exists rest,
       (launch_game OpenFails GameMissing 2 (lit "tux") Sample.world0).1
       = inr (MsgLaunching "SuperTux" (lit "tux") :: rest)
       /\ MsgBadChoice ∉ rest.
Proof.
  assert (E : menu_action_of (lit " 2 ") = Launch 2)
    by (vm_compute; reflexivity).
  split; [exact E|].
  destruct (menu_launches_known_games_only (lit " 2 ") 2 E) as [_ H].
  destruct (H OpenFails GameMissing (lit "tux") Sample.world0)
    as (path & name & rest & Hg & Hl & Hn).
  injection Hg as <- <-. exists rest. split; [exact Hl | exact Hn].
Defined.




End Menu.

(** ** Calibration from the datagrams *)

Section CalibrationFromDatagrams.

Import Detector.




End CalibrationFromDatagrams.

(** ** The sink against the collector of this repository *)

Section SinkAndCollector.

Lemma tally_collector p outcomes logs : forall n,
  (forall o log, p (Response (reply_status (add_log o))) log = false) ->
  tally p (collector outcomes) n logs = O.
Proof.
  induction logs as [|log logs IH]; intros n H; simpl; [reflexivity|].
  unfold collector at 1. now rewrite H, IH.
Qed.

Lemma tally_ext p outcome outcome' logs : forall n,
  (forall k, outcome k = outcome' k) ->
  tally p outcome n logs = tally p outcome' n logs.
Proof.
  induction logs as [|log logs IH]; intros n H; simpl; [reflexivity|].
  now rewrite H, (IH (S n) H).
Qed.

Lemma tally_stored outcomes logs : forall n,
  tally accepted (collector outcomes) n logs
  = length (filter (fun o => answered o = true)
              (outcomes <$> seq n (length logs))).
Proof.
  induction logs as [|log logs IH]; intros n; [reflexivity|].
  cbn [tally length seq fmap list_fmap]. rewrite IH.
  unfold collector at 1.
  destruct (outcomes n) as [id|id| |] eqn:E; simpl;
    rewrite ?filter_cons_True, ?filter_cons_False by (simpl; congruence);
    reflexivity.
Qed.

(** X22.  The log endpoints of the collector answer a record they already
    hold with status 200, like a record they store, and never with 409.  So
    against this collector the sink never counts a duplicate: a record sent
    again is counted as saved, and the accepted count is the number of
    requests the collector answered, stored or not. *)
Theorem duplicates_are_counted_as_saved
    (outcomes : nat -> store_outcome) (game : string)
    (logs : list PlayRecord) (w : World) :
  (forall n, http w n = collector outcomes n) ->
  exists c w',
    send_to_api game logs w = (inr c, w')
    /\ duplicate_count c = O
    /\ success_count c
       = length (filter (fun o => answered o = true)
                   (outcomes <$> seq (http_calls w) (length logs)))
    /\ forall o, reply_status (add_log o) <> 409.
Proof.
  intros H.
  destruct (send_to_api_eq game logs w)
    as (c & w' & fl & E & H1 & _ & H3 & _).
  exists c, w'. split; [exact E|].
  rewrite (tally_ext accepted _ _ logs _ H) in H1.
  rewrite (tally_ext conflict _ _ logs _ H) in H3.
  split; [|split].
  - rewrite H3. apply tally_collector. intros o log. now destruct o.
  - rewrite H1. apply tally_stored.
  - intros o. destruct o; discriminate.
Qed.

Lemma duplicates_are_counted_as_saved_witness :
  exists c w',
    send_to_api "neverball" [Sample.alice; Sample.alice] Sample.world_collector
    = (inr c, w')
    /\ duplicate_count c = O /\ success_count c = 2%nat.
Proof.
  destruct (duplicates_are_counted_as_saved
              (fun n => match n with O => Stored 1 | _ => AlreadyThere 1 end)
              "neverball" [Sample.alice; Sample.alice] Sample.world_collector)
    as (c & w' & E & Hd & Hs & _); [intros n; reflexivity|].
  exists c, w'. split; [exact E|]. split; [exact Hd|].
  rewrite Hs. reflexivity.
Defined.

End SinkAndCollector.

(** ** The level blocks of a SuperTux save file *)

Section LevelBlocks.

Import Re.








End LevelBlocks.
